(** * Event store with transactional outbox: a shallow embedding

    The development follows [src/domain/events_store.py] and the event
    records of [src/domain/__init__.py]:

    - [Py]        the Python values that travel through the encoder, with the
                  standard-library string forms the encoder relies on
                  ([str] of a UUID and of a Decimal, [datetime.isoformat]);
    - [Domain]    [EventMetadata], [DomainEvent] and [dataclasses.asdict];
    - [Encoder]   [EventEncoder.default], [json.dumps] driven by it, and
                  [json.loads];
    - [Db]        the two tables, the statements the code issues against them
                  and the transactional scope;
    - [Store]     [EventStore.append_events] and [EventStore.load_events];
    - [Relay]     [OutboxRelay.process_outbox] against a Kafka producer.

    A JSON document is represented by its parse tree: [json.dumps] yields the
    text of such a tree and [json.loads] reads that text back, so the column
    [event_data] holds a [json] value. Floating-point fields are left out of
    the value universe. *)

From Stdlib Require Import ZArith NArith List String Ascii Bool Lia.
From Stdlib Require Import Permutation Sorted DecimalString.
Import ListNotations.

Set Warnings "-register-all".

Open Scope string_scope.
Open Scope Z_scope.

(* ------------------------------------------------------------------ *)
(** ** Exceptions and the error monad *)

Definition UUID := N.

Inductive exn : Type :=
| ConcurrencyError (aggregate_id : UUID) (expected_version actual_version : Z)
| AggregateNotFoundError (aggregate_id : UUID) (aggregate_type : string)
| TypeError (type_name : string)
| UniqueViolationError (constraint : string)
| CheckViolationError (constraint : string)
| InvalidRowCountInLimitClauseError
| KafkaError.

Inductive result (A : Type) : Type :=
| Ok (a : A)
| Raise (e : exn).
Arguments Ok {A} a.
Arguments Raise {A} e.

Definition rbind {A B} (r : result A) (k : A -> result B) : result B :=
  match r with
  | Ok a => k a
  | Raise e => Raise e
  end.

Definition rmap {A B} (f : A -> B) (r : result A) : result B :=
  rbind r (fun a => Ok (f a)).

Fixpoint mapM {A B} (f : A -> result B) (l : list A) : result (list B) :=
  match l with
  | [] => Ok []
  | a :: l' => rbind (f a) (fun b => rbind (mapM f l') (fun bs => Ok (b :: bs)))
  end.

(* ------------------------------------------------------------------ *)
(** ** Python values and their string forms *)

Module Py.

(** *** Digits and padding *)

Definition string_of_N (n : N) : string :=
  NilZero.string_of_uint (N.to_uint n).

Fixpoint repeat_char (c : ascii) (n : nat) : string :=
  match n with
  | O => EmptyString
  | S n' => String c (repeat_char c n')
  end.

(** ["%0<w>d" % n] for a non-negative [n]. *)
Definition zfill (w : nat) (n : N) : string :=
  let s := string_of_N n in
  repeat_char "0" (w - String.length s) ++ s.

(** ["%+d" % z]. *)
Definition signed_decimal (z : Z) : string :=
  (if z <? 0 then "-" else "+") ++ string_of_N (Z.abs_N z).

Definition hex_digit (n : N) : ascii :=
  match n with
  | 0%N => "0" | 1%N => "1" | 2%N => "2" | 3%N => "3"
  | 4%N => "4" | 5%N => "5" | 6%N => "6" | 7%N => "7"
  | 8%N => "8" | 9%N => "9" | 10%N => "a" | 11%N => "b"
  | 12%N => "c" | 13%N => "d" | 14%N => "e" | _ => "f"
  end%char.

(** The [w] low hexadecimal digits of [n], most significant first. *)
Fixpoint hex_fixed (w : nat) (n : N) : string :=
  match w with
  | O => EmptyString
  | S w' =>
      hex_fixed w' (N.shiftr n 4) ++ String (hex_digit (N.land n 15)) EmptyString
  end.

(** *** [uuid.UUID.__str__]: ['%032x' % self.int], hyphenated 8-4-4-4-12. *)
Definition uuid_str (u : UUID) : string :=
  let hex := hex_fixed 32 u in
  substring 0 8 hex ++ "-" ++ substring 8 4 hex ++ "-" ++
  substring 12 4 hex ++ "-" ++ substring 16 4 hex ++ "-" ++
  substring 20 12 hex.

(** *** [decimal.Decimal]

    A Decimal is a sign, a coefficient written as a string of digits
    ([_int]) and an exponent, which is an integer or one of the markers
    ['F'] (infinity), ['n'] (quiet NaN), ['N'] (signalling NaN). *)

Inductive dec_exp : Type :=
| ExpInt (e : Z)
| ExpF
| Expn
| ExpN.

Record Decimal : Type := mkDecimal {
  _sign : bool;
  _int : string;
  _exp : dec_exp
}.

(** [Decimal.__str__], scientific notation with capitals. *)
Definition decimal_str (d : Decimal) : string :=
  let sign := if _sign d then "-" else "" in
  match _exp d with
  | ExpF => sign ++ "Infinity"
  | Expn => sign ++ "NaN" ++ _int d
  | ExpN => sign ++ "sNaN" ++ _int d
  | ExpInt e =>
      let len := Z.of_nat (String.length (_int d)) in
      let leftdigits := e + len in
      let dotplace :=
        if (e <=? 0) && (-6 <? leftdigits) then leftdigits else 1 in
      let intpart :=
        if dotplace <=? 0 then "0"
        else if len <=? dotplace
             then _int d ++ repeat_char "0" (Z.to_nat (dotplace - len))
             else substring 0 (Z.to_nat dotplace) (_int d) in
      let fracpart :=
        if dotplace <=? 0
        then "." ++ repeat_char "0" (Z.to_nat (- dotplace)) ++ _int d
        else if len <=? dotplace then ""
             else "." ++ substring (Z.to_nat dotplace)
                                   (Z.to_nat (len - dotplace)) (_int d) in
      let exp :=
        if leftdigits =? dotplace then ""
        else "E" ++ signed_decimal (leftdigits - dotplace) in
      sign ++ intpart ++ fracpart ++ exp
  end.

(** *** [datetime.datetime]

    [utcoffset] is [None] for a naive datetime, otherwise the offset from
    UTC in seconds. *)

Record datetime : Type := mkDatetime {
  year : N;
  month : N;
  day : N;
  hour : N;
  minute : N;
  second : N;
  microsecond : N;
  utcoffset : option Z
}.

Definition format_time (t : datetime) : string :=
  zfill 2 (hour t) ++ ":" ++ zfill 2 (minute t) ++ ":" ++ zfill 2 (second t) ++
  (if (microsecond t =? 0)%N then "" else "." ++ zfill 6 (microsecond t)).

Definition format_offset (off : option Z) : string :=
  match off with
  | None => ""
  | Some o =>
      let sign := if o <? 0 then "-" else "+" in
      let a := Z.abs_N o in
      let hh := (a / 3600)%N in
      let mm := ((a mod 3600) / 60)%N in
      let ss := (a mod 60)%N in
      sign ++ zfill 2 hh ++ ":" ++ zfill 2 mm ++
      (if (ss =? 0)%N then "" else ":" ++ zfill 2 ss)
  end.

(** [datetime.isoformat()] with the default separator and timespec. *)
Definition isoformat (t : datetime) : string :=
  zfill 4 (year t) ++ "-" ++ zfill 2 (month t) ++ "-" ++ zfill 2 (day t) ++
  "T" ++ format_time t ++ format_offset (utcoffset t).

(** *** [str.lower] on the ASCII letters. *)
Definition lower_char (c : ascii) : ascii :=
  let n := nat_of_ascii c in
  if (Nat.leb 65 n && Nat.leb n 90)%bool then ascii_of_nat (n + 32) else c.

Fixpoint lower (s : string) : string :=
  match s with
  | EmptyString => EmptyString
  | String c s' => String (lower_char c) (lower s')
  end.

End Py.

(* ------------------------------------------------------------------ *)
(** ** Domain events *)

Module Domain.
Import Py.

(** [EventMetadata], a frozen dataclass; fields in declaration order. *)
Record EventMetadata : Type := mkEventMetadata {
  event_id : UUID;
  correlation_id : UUID;
  timestamp : datetime;
  causation_id : option UUID;
  user_id : option UUID;
  schema_version : Z
}.

(** The values a dataclass field may hold.

    [PEnum] is a member of one of the repository's enumerations, all of
    which are declared [class X(str, Enum)]: an instance of [str] whose
    string content is its [value]. [PObject] is an instance of any other
    class, given by the name of its class and its attributes. *)
Inductive pyval : Type :=
| PNone
| PBool (b : bool)
| PInt (z : Z)
| PStr (s : string)
| PList (l : list pyval)
| PTuple (l : list pyval)
| PDict (d : list (string * pyval))
| PUUID (u : UUID)
| PDecimal (d : Decimal)
| PDatetime (t : datetime)
| PEnum (cls name value : string)
| PMetadata (m : EventMetadata)
| PObject (cls : string) (attrs : list (string * pyval)).

(** A domain event: an instance of a subclass of [DomainEvent]. The two
    inherited fields come first, then the fields the subclass declares. *)
Record DomainEvent : Type := mkDomainEvent {
  class_name : string;              (* event.__class__.__name__ *)
  aggregate_id : UUID;
  metadata : EventMetadata;
  fields : list (string * pyval)
}.

Definition opt_uuid (o : option UUID) : pyval :=
  match o with
  | Some u => PUUID u
  | None => PNone
  end.

(** [asdict] of the metadata record: its fields hold no dataclass, list or
    dict, so each is copied as it is. *)
Definition asdict_metadata (m : EventMetadata) : pyval :=
  PDict [ ("event_id", PUUID (event_id m));
          ("correlation_id", PUUID (correlation_id m));
          ("timestamp", PDatetime (timestamp m));
          ("causation_id", opt_uuid (causation_id m));
          ("user_id", opt_uuid (user_id m));
          ("schema_version", PInt (schema_version m)) ].

(** [dataclasses._asdict_inner]: dataclass instances become dicts, lists,
    tuples and dicts are rebuilt around the converted items, anything else
    is deep-copied. *)
Fixpoint asdict_inner (v : pyval) : pyval :=
  match v with
  | PMetadata m => asdict_metadata m
  | PList l => PList (map asdict_inner l)
  | PTuple l => PTuple (map asdict_inner l)
  | PDict d => PDict (map (fun kv => (fst kv, asdict_inner (snd kv))) d)
  | _ => v
  end.

(** [dataclasses.asdict(event)]. *)
Definition asdict (e : DomainEvent) : pyval :=
  PDict (("aggregate_id", PUUID (aggregate_id e)) ::
         ("metadata", asdict_metadata (metadata e)) ::
         map (fun kv => (fst kv, asdict_inner (snd kv))) (fields e)).

Fixpoint assoc {A} (k : string) (l : list (string * A)) : option A :=
  match l with
  | [] => None
  | (k', a) :: l' => if String.eqb k k' then Some a else assoc k l'
  end.

(** [getattr(obj, name)] where it is defined; [None] when [hasattr] is
    false. Only the attributes the encoder looks at are modelled. *)
Definition getattr (obj : pyval) (name : string) : option pyval :=
  match obj with
  | PEnum _ _ v => if String.eqb name "value" then Some (PStr v) else None
  | PObject _ attrs => assoc name attrs
  | _ => None
  end.

Definition hasattr (obj : pyval) (name : string) : bool :=
  match getattr obj name with
  | Some _ => true
  | None => false
  end.

(** [type(obj).__name__]. *)
Definition type_name (obj : pyval) : string :=
  match obj with
  | PNone => "NoneType"
  | PBool _ => "bool"
  | PInt _ => "int"
  | PStr _ => "str"
  | PList _ => "list"
  | PTuple _ => "tuple"
  | PDict _ => "dict"
  | PUUID _ => "UUID"
  | PDecimal _ => "Decimal"
  | PDatetime _ => "datetime"
  | PEnum cls _ _ => cls
  | PMetadata _ => "EventMetadata"
  | PObject cls _ => cls
  end.

End Domain.

(* ------------------------------------------------------------------ *)
(** ** The payload encoder *)

Module Encoder.
Import Py Domain.

Inductive json : Type :=
| JNull
| JBool (b : bool)
| JInt (z : Z)
| JStr (s : string)
| JArr (l : list json)
| JObj (m : list (string * json)).

Definition isinstance_UUID (obj : pyval) : bool :=
  match obj with PUUID _ => true | _ => false end.
Definition isinstance_Decimal (obj : pyval) : bool :=
  match obj with PDecimal _ => true | _ => false end.
Definition isinstance_EventMetadata (obj : pyval) : bool :=
  match obj with PMetadata _ => true | _ => false end.
Definition isinstance_datetime (obj : pyval) : bool :=
  match obj with PDatetime _ => true | _ => false end.

(** [EventEncoder.default]: the four [isinstance] tests in source order,
    then the [hasattr(obj, 'value')] fallback, then the parent class, which
    raises [TypeError]. *)
Definition default (obj : pyval) : result pyval :=
  match obj with
  | PUUID u => Ok (PStr (uuid_str u))
  | PDecimal d => Ok (PStr (decimal_str d))
  | PMetadata m => Ok (asdict_metadata m)
  | PDatetime t => Ok (PStr (isoformat t))
  | _ =>
      match getattr obj "value" with
      | Some v => Ok v
      | None => Raise (TypeError (type_name obj))
      end
  end.

(** The values [json] serialises by itself, without calling [default]:
    [str] (and so the members of a [str]-based enumeration), [None],
    [bool], [int], lists, tuples and dicts. *)
Definition json_native (obj : pyval) : bool :=
  match obj with
  | PNone | PBool _ | PInt _ | PStr _ | PEnum _ _ _
  | PList _ | PTuple _ | PDict _ => true
  | _ => false
  end.

(** [json.dumps(obj, cls=EventEncoder)]. A value that is not native is
    replaced by [default(obj)] and the result encoded in turn; the cases of
    [default] are unfolded here so that the recursion is structural, and
    [json_dumps_default] below states the equation with [default]. *)
Fixpoint json_dumps (obj : pyval) : result json :=
  let items :=
    fix items (l : list pyval) : result (list json) :=
      match l with
      | [] => Ok []
      | v :: l' =>
          rbind (json_dumps v) (fun j =>
          rbind (items l') (fun js => Ok (j :: js)))
      end in
  match obj with
  | PStr s => Ok (JStr s)
  | PEnum _ _ v => Ok (JStr v)
  | PNone => Ok JNull
  | PBool b => Ok (JBool b)
  | PInt z => Ok (JInt z)
  | PList l => rmap JArr (items l)
  | PTuple l => rmap JArr (items l)
  | PDict d =>
      rmap JObj
        ((fix members (l : list (string * pyval)) :=
            match l with
            | [] => Ok []
            | (k, v) :: l' =>
                rbind (json_dumps v) (fun j =>
                rbind (members l') (fun js => Ok ((k, j) :: js)))
            end) d)
  | PUUID u => Ok (JStr (uuid_str u))
  | PDecimal d => Ok (JStr (decimal_str d))
  | PDatetime t => Ok (JStr (isoformat t))
  | PMetadata m =>
      let opt o := match o with
                   | Some u => JStr (uuid_str u)
                   | None => JNull
                   end in
      Ok (JObj [ ("event_id", JStr (uuid_str (event_id m)));
                 ("correlation_id", JStr (uuid_str (correlation_id m)));
                 ("timestamp", JStr (isoformat (timestamp m)));
                 ("causation_id", opt (causation_id m));
                 ("user_id", opt (user_id m));
                 ("schema_version", JInt (schema_version m)) ])
  | PObject cls attrs =>
      (fix find (l : list (string * pyval)) :=
         match l with
         | [] => Raise (TypeError cls)
         | (k, v) :: l' =>
             if String.eqb "value" k then json_dumps v else find l'
         end) attrs
  end.

(** [json.loads]: objects become dicts, arrays lists, and the scalars the
    corresponding Python scalars. *)
Fixpoint json_loads (j : json) : pyval :=
  match j with
  | JNull => PNone
  | JBool b => PBool b
  | JInt z => PInt z
  | JStr s => PStr s
  | JArr l => PList (map json_loads l)
  | JObj m => PDict (map (fun kv => (fst kv, json_loads (snd kv))) m)
  end.

End Encoder.

(* ------------------------------------------------------------------ *)
(** ** The relational store *)

Module Db.
Import Py Domain Encoder.

Record event_row : Type := mkEventRow {
  ev_event_id : UUID;
  ev_aggregate_id : UUID;
  ev_aggregate_type : string;
  ev_event_type : string;
  ev_event_data : json;
  ev_version : Z;
  ev_tenant_id : UUID;
  ev_created_at : datetime
}.

Record outbox_row : Type := mkOutboxRow {
  ob_id : Z;
  ob_event_id : UUID;
  ob_aggregate_type : string;
  ob_event_type : string;
  ob_event_data : json;
  ob_tenant_id : UUID;
  ob_created_at : Z
}.

(** The two tables, each in insertion order, and the sequence behind
    [outbox.id]. *)
Record database : Type := mkDatabase {
  events : list event_row;
  outbox : list outbox_row;
  outbox_id_seq : Z
}.

Definition empty : database := mkDatabase [] [] 1.

(** *** Statements run on a connection: state passing with exceptions *)

Definition conn (A : Type) : Type := database -> result A * database.

Definition ret {A} (a : A) : conn A := fun db => (Ok a, db).

Definition raise {A} (e : exn) : conn A := fun db => (Raise e, db).

Definition lift {A} (r : result A) : conn A := fun db => (r, db).

Definition bind {A B} (m : conn A) (k : A -> conn B) : conn B :=
  fun db =>
    match m db with
    | (Ok a, db') => k a db'
    | (Raise e, db') => (Raise e, db')
    end.

Notation "x <- m ;; k" := (bind m (fun x => k))
  (at level 100, m at next level, right associativity).

(** [async with conn.transaction()]: commit when the block returns, roll
    the tables back when it raises. A sequence is not transactional: the
    values it handed out stay consumed. *)
Definition rollback (before after : database) : database :=
  mkDatabase (events before) (outbox before) (outbox_id_seq after).

Definition transaction {A} (block : conn A) : conn A :=
  fun db =>
    match block db with
    | (Ok a, db') => (Ok a, db')
    | (Raise e, db') => (Raise e, rollback db db')
    end.

(** *** Sorting, as [ORDER BY] does it

    A [SELECT] reads the table in some scan order, a permutation of its
    rows that the executor chooses; [ORDER BY key ASC] sorts what was read
    by the key and says nothing about rows whose keys are equal, which
    come out here in scan order. Every permutation of the table that is
    sorted by the key is then the answer for some scan. *)

Fixpoint insert_by {A} (key : A -> Z) (x : A) (l : list A) : list A :=
  match l with
  | [] => [x]
  | y :: l' => if key x <=? key y then x :: l else y :: insert_by key x l'
  end.

Definition order_by {A} (key : A -> Z) (l : list A) : list A :=
  fold_right (insert_by key) [] l.

(** *** The [events] table *)

Definition in_stream (aggregate_id tenant_id : UUID) (r : event_row) : bool :=
  N.eqb (ev_aggregate_id r) aggregate_id && N.eqb (ev_tenant_id r) tenant_id.

(** [SELECT COALESCE(MAX(version), 0) FROM events
     WHERE aggregate_id = $1 AND tenant_id = $2]. *)
Definition max_version (rows : list event_row) : option Z :=
  fold_right
    (fun r acc =>
       match acc with
       | None => Some (ev_version r)
       | Some m => Some (Z.max (ev_version r) m)
       end)
    None rows.

Definition coalesce (o : option Z) (d : Z) : Z :=
  match o with
  | Some z => z
  | None => d
  end.

Definition current_version (db : database) (aggregate_id tenant_id : UUID) : Z :=
  coalesce
    (max_version (filter (in_stream aggregate_id tenant_id) (events db))) 0.

Definition fetchval_current_version (aggregate_id tenant_id : UUID) : conn Z :=
  fun db => (Ok (current_version db aggregate_id tenant_id), db).

Definition same_version_key (r r' : event_row) : bool :=
  N.eqb (ev_tenant_id r) (ev_tenant_id r') &&
  N.eqb (ev_aggregate_id r) (ev_aggregate_id r') &&
  (ev_version r =? ev_version r').

(** Modelled from the spec: the declaration of the [events] table is not
    part of the sources; section 6 of the specification gives it with
    [CHECK (version > 0)], [event_id] as primary key and
    [UNIQUE (tenant_id, aggregate_id, version)]. [INSERT INTO events]
    raises when the new row breaks one of them and adds the row
    otherwise. *)
Definition insert_event (r : event_row) : conn unit :=
  fun db =>
    if negb (0 <? ev_version r)
    then (Raise (CheckViolationError "events_version_check"), db)
    else if existsb (fun r' => N.eqb (ev_event_id r') (ev_event_id r)) (events db)
    then (Raise (UniqueViolationError "events_pkey"), db)
    else if existsb (same_version_key r) (events db)
    then (Raise (UniqueViolationError "events_tenant_id_aggregate_id_version_key"), db)
    else (Ok tt, mkDatabase (events db ++ [r]) (outbox db) (outbox_id_seq db)).

(** [SELECT event_id, event_type, event_data, version, created_at
     FROM events WHERE aggregate_id = $1 AND tenant_id = $2
     ORDER BY version ASC], reading the table in the order [scan]. *)
Definition fetch_events (scan : list event_row) (aggregate_id tenant_id : UUID)
  : list event_row :=
  order_by ev_version (filter (in_stream aggregate_id tenant_id) scan).

(** *** The [outbox] table *)

(** Modelled from the spec: the declaration of the [outbox] table is not
    part of the sources; section 6 of the specification gives it with
    [id BIGSERIAL PRIMARY KEY] and [created_at ... DEFAULT now()]. The
    statement of the code names neither column, so [id] is the next value
    of the sequence and [created_at] the time [now] of the running
    transaction. *)
Definition insert_outbox (now : Z) (event_id : UUID)
    (aggregate_type event_type : string) (event_data : json)
    (tenant_id : UUID) : conn unit :=
  fun db =>
    (Ok tt,
     mkDatabase (events db)
       (outbox db ++
          [mkOutboxRow (outbox_id_seq db) event_id aggregate_type event_type
                       event_data tenant_id now])
       (outbox_id_seq db + 1)).

(** [SELECT id, event_id, aggregate_type, event_type, event_data, tenant_id
     FROM outbox ORDER BY created_at ASC LIMIT $1], reading the table in
     the order [scan]. PostgreSQL rejects a negative [LIMIT]. *)
Definition fetch_outbox (scan : list outbox_row) (batch_size : Z)
  : result (list outbox_row) :=
  if batch_size <? 0 then Raise InvalidRowCountInLimitClauseError
  else Ok (firstn (Z.to_nat batch_size) (order_by ob_created_at scan)).

(** [DELETE FROM outbox WHERE id = $1]. *)
Definition delete_outbox (id : Z) : conn unit :=
  fun db =>
    (Ok tt,
     mkDatabase (events db)
       (filter (fun r => negb (ob_id r =? id)) (outbox db))
       (outbox_id_seq db)).

End Db.

(* ------------------------------------------------------------------ *)
(** ** [EventStore] *)

Module Store.
Import Py Domain Encoder Db.

(** The body of [for event in new_events], the loop counter [new_version]
    being carried along. *)
Fixpoint append_loop (aggregate_id : UUID) (aggregate_type : string)
    (tenant_id : UUID) (now : Z) (new_events : list DomainEvent)
    (new_version : Z) : conn Z :=
  match new_events with
  | [] => ret new_version
  | event :: rest =>
      let new_version := new_version + 1 in
      event_data <- lift (json_dumps (asdict event)) ;;
      _ <- insert_event
             (mkEventRow (event_id (metadata event)) aggregate_id
                aggregate_type (class_name event) event_data new_version
                tenant_id (timestamp (metadata event))) ;;
      _ <- insert_outbox now (event_id (metadata event)) aggregate_type
             (class_name event) event_data tenant_id ;;
      append_loop aggregate_id aggregate_type tenant_id now rest new_version
  end.

(** [EventStore.append_events]; [now] is the time at which its transaction
    starts. *)
Definition append_events (aggregate_id : UUID) (aggregate_type : string)
    (expected_version : Z) (new_events : list DomainEvent)
    (tenant_id : UUID) (now : Z) : conn Z :=
  transaction (
    current_version <- fetchval_current_version aggregate_id tenant_id ;;
    if negb (current_version =? expected_version)
    then raise (ConcurrencyError aggregate_id expected_version current_version)
    else append_loop aggregate_id aggregate_type tenant_id now new_events
           expected_version).

(** The dict [load_events] builds for a row. *)
Record event_dict : Type := mkEventDict {
  d_event_id : UUID;
  d_event_type : string;
  d_event_data : pyval;
  d_version : Z;
  d_created_at : datetime
}.

Definition event_dict_of_row (row : event_row) : event_dict :=
  mkEventDict (ev_event_id row) (ev_event_type row)
              (json_loads (ev_event_data row)) (ev_version row)
              (ev_created_at row).

(** [EventStore.load_events]; [scan] is the order in which the query reads
    the [events] table. *)
Definition load_events (scan : list event_row) (aggregate_id : UUID)
    (aggregate_type : string) (tenant_id : UUID) : result (list event_dict) :=
  let rows := fetch_events scan aggregate_id tenant_id in
  match rows with
  | [] => Raise (AggregateNotFoundError aggregate_id aggregate_type)
  | _ => Ok (map event_dict_of_row rows)
  end.

End Store.

(* ------------------------------------------------------------------ *)
(** ** [OutboxRelay] *)

Module Relay.
Import Py Domain Encoder Db.

Record message : Type := mkMessage {
  topic : string;
  key : string;
  value : json
}.

(** The Kafka producer: [acks n m] tells whether the broker acknowledges
    message [m] when it is the [n]-th message handed to the producer;
    [calls] records every [send_and_wait] so far with its outcome, oldest
    first. *)
Record KafkaProducer : Type := mkKafkaProducer {
  acks : nat -> message -> bool;
  calls : list (message * bool)
}.

Definition send_and_wait (kp : KafkaProducer) (m : message)
  : result unit * KafkaProducer :=
  let ok := acks kp (List.length (calls kp)) m in
  ((if ok then Ok tt else Raise KafkaError),
   mkKafkaProducer (acks kp) (calls kp ++ [(m, ok)])).

Definition message_of_row (row : outbox_row) : message :=
  mkMessage ("finance." ++ lower (ob_aggregate_type row) ++ ".events")
            (uuid_str (ob_event_id row))
            (ob_event_data row).

(** [for row in rows: try: ... except Exception: continue]. *)
Fixpoint process_rows (rows : list outbox_row) (processed_count : Z)
    (db : database) (kp : KafkaProducer) : Z * database * KafkaProducer :=
  match rows with
  | [] => (processed_count, db, kp)
  | row :: rest =>
      match send_and_wait kp (message_of_row row) with
      | (Ok _, kp') =>
          let db' := snd (delete_outbox (ob_id row) db) in
          process_rows rest (processed_count + 1) db' kp'
      | (Raise _, kp') =>
          process_rows rest processed_count db kp'
      end
  end.

(** [OutboxRelay.process_outbox]; [scan] is the order in which the query
    reads the [outbox] table. *)
Definition process_outbox (scan : list outbox_row) (batch_size : Z)
    (db : database) (kp : KafkaProducer) : result Z * database * KafkaProducer :=
  match fetch_outbox scan batch_size with
  | Raise e => (Raise e, db, kp)
  | Ok [] => (Ok 0, db, kp)
  | Ok rows =>
      let '(n, db', kp') := process_rows rows 0 db kp in
      (Ok n, db', kp')
  end.

End Relay.

(* ------------------------------------------------------------------ *)
(** ** Vocabulary of the statements *)

Module Props.
Import Py Domain Encoder Db Store Relay.

(** *** Integrity of a database state *)

Fixpoint nodupb {A} (eqb : A -> A -> bool) (l : list A) : bool :=
  match l with
  | [] => true
  | x :: l' => negb (existsb (eqb x) l') && nodupb eqb l'
  end.

(** The declared constraints hold, and the sequence is ahead of every
    [outbox.id] it has handed out. *)
Definition db_wf (db : database) : bool :=
  forallb (fun r => 0 <? ev_version r) (events db) &&
  nodupb N.eqb (map ev_event_id (events db)) &&
  nodupb same_version_key (events db) &&
  nodupb Z.eqb (map ob_id (outbox db)) &&
  forallb (fun r => ob_id r <? outbox_id_seq db) (outbox db).

(** The key of [UNIQUE (tenant_id, aggregate_id, version)]. *)
Definition vkey (r : event_row) : UUID * UUID * Z :=
  (ev_tenant_id r, ev_aggregate_id r, ev_version r).

(** The integrity conditions, as propositions. *)
Record integrity (db : database) : Prop := mkIntegrity {
  versions_positive : Forall (fun r => 0 < ev_version r) (events db);
  event_ids_unique : NoDup (map ev_event_id (events db));
  version_keys_unique : NoDup (map vkey (events db));
  outbox_ids_unique : NoDup (map ob_id (outbox db));
  outbox_ids_issued :
    Forall (fun r => ob_id r < outbox_id_seq db) (outbox db)
}.

(** The versions [start + 1, ..., start + n]. *)
Fixpoint version_range (start : Z) (n : nat) : list Z :=
  match n with
  | O => []
  | S n' => (start + 1) :: version_range (start + 1) n'
  end.

(** Every stream holds the versions 1, 2, ..., N, in the order in which
    its rows were written. *)
Definition contiguous (db : database) : Prop :=
  forall aggregate_id tenant_id,
    let stream := filter (in_stream aggregate_id tenant_id) (events db) in
    map ev_version stream = version_range 0 (List.length stream).

(** The states the two services produce from the empty database. *)
Inductive reachable : database -> Prop :=
| reach_empty : reachable Db.empty
| reach_append :
    forall db aggregate_id aggregate_type expected_version new_events
           tenant_id now,
      reachable db ->
      reachable (snd (append_events aggregate_id aggregate_type
                        expected_version new_events tenant_id now db))
| reach_relay :
    forall db scan batch_size kp,
      reachable db ->
      Permutation scan (outbox db) ->
      reachable (snd (fst (process_outbox scan batch_size db kp))).

(** *** The rows an append is expected to write *)

(** The [events] rows for [new_events], the first one at version
    [version + 1]. *)
Fixpoint new_event_rows (aggregate_id : UUID) (aggregate_type : string)
    (tenant_id : UUID) (new_events : list DomainEvent) (datas : list json)
    (version : Z) : list event_row :=
  match new_events, datas with
  | event :: rest, event_data :: datas' =>
      mkEventRow (event_id (metadata event)) aggregate_id aggregate_type
                 (class_name event) event_data (version + 1) tenant_id
                 (timestamp (metadata event))
      :: new_event_rows aggregate_id aggregate_type tenant_id rest datas'
           (version + 1)
  | _, _ => []
  end.

(** The [outbox] rows for [new_events], the first one with id [id]. *)
Fixpoint new_outbox_rows (aggregate_type : string) (tenant_id : UUID)
    (now : Z) (new_events : list DomainEvent) (datas : list json) (id : Z)
  : list outbox_row :=
  match new_events, datas with
  | event :: rest, event_data :: datas' =>
      mkOutboxRow id (event_id (metadata event)) aggregate_type
                  (class_name event) event_data tenant_id now
      :: new_outbox_rows aggregate_type tenant_id now rest datas' (id + 1)
  | _, _ => []
  end.

(** An [events] row and an [outbox] row that carry the same event. *)
Definition paired (er : event_row) (orow : outbox_row) : Prop :=
  ob_event_id orow = ev_event_id er /\
  ob_event_type orow = ev_event_type er /\
  ob_event_data orow = ev_event_data er /\
  ob_tenant_id orow = ev_tenant_id er /\
  ob_aggregate_type orow = ev_aggregate_type er.

(** The row written for an event. *)
Definition row_of_event (event : DomainEvent) (er : event_row) : Prop :=
  ev_event_id er = event_id (metadata event) /\
  ev_event_type er = class_name event /\
  json_dumps (asdict event) = Ok (ev_event_data er) /\
  ev_created_at er = timestamp (metadata event).

(** *** Publication outcomes of a batch *)

(** Whether the broker acknowledges each row of [rows], the first one being
    the [n]-th message of the producer. *)
Fixpoint outcomes (acks : nat -> message -> bool) (n : nat)
    (rows : list outbox_row) : list bool :=
  match rows with
  | [] => []
  | row :: rest => acks n (message_of_row row) :: outcomes acks (S n) rest
  end.

Definition count_true (l : list bool) : Z :=
  Z.of_nat (List.length (filter (fun b => b) l)).

(** Whether the publication of a row with the id of [r] was acknowledged
    in a batch [rows] with outcomes [oks]. *)
Definition acknowledged (rows : list outbox_row) (oks : list bool)
    (r : outbox_row) : bool :=
  existsb (fun p => snd p && (ob_id (fst p) =? ob_id r)) (combine rows oks).

(** *** Orders on outbox rows *)

Definition created_le (r r' : outbox_row) : Prop :=
  ob_created_at r <= ob_created_at r'.

(** [created_at ASC, id ASC]. *)
Definition fifo_le (r r' : outbox_row) : Prop :=
  ob_created_at r < ob_created_at r' \/
  (ob_created_at r = ob_created_at r' /\ ob_id r <= ob_id r').

Definition version_lt (r r' : event_row) : Prop :=
  ev_version r < ev_version r'.

(** *** Wire form of a value

    What the table of the codec gives for each kind of value: identifiers,
    decimals and timestamps as strings, an enumeration member as its wire
    value, the metadata record as a nested object, a tuple as an array; an
    object with a [value] attribute stands for that value. *)
Fixpoint wire_form (v : pyval) : pyval :=
  match v with
  | PNone => PNone
  | PBool b => PBool b
  | PInt z => PInt z
  | PStr s => PStr s
  | PList l => PList (map wire_form l)
  | PTuple l => PList (map wire_form l)
  | PDict d => PDict (map (fun kv => (fst kv, wire_form (snd kv))) d)
  | PUUID u => PStr (uuid_str u)
  | PDecimal d => PStr (decimal_str d)
  | PDatetime t => PStr (isoformat t)
  | PEnum _ _ w => PStr w
  | PMetadata m =>
      let opt o := match o with
                   | Some u => PStr (uuid_str u)
                   | None => PNone
                   end in
      PDict [ ("event_id", PStr (uuid_str (event_id m)));
              ("correlation_id", PStr (uuid_str (correlation_id m)));
              ("timestamp", PStr (isoformat (timestamp m)));
              ("causation_id", opt (causation_id m));
              ("user_id", opt (user_id m));
              ("schema_version", PInt (schema_version m)) ]
  | PObject _ attrs =>
      (fix find (l : list (string * pyval)) :=
         match l with
         | [] => PNone
         | (k, x) :: l' => if String.eqb "value" k then wire_form x else find l'
         end) attrs
  end.

(** The two loops of [json_dumps], by name. *)
Definition dumps_items (l : list pyval) : result (list json) :=
  mapM json_dumps l.

Fixpoint dumps_members (l : list (string * pyval))
  : result (list (string * json)) :=
  match l with
  | [] => Ok []
  | (k, v) :: l' =>
      rbind (json_dumps v) (fun j =>
      rbind (dumps_members l') (fun js => Ok ((k, j) :: js)))
  end.

(** The scalars that JSON has as they are. *)
Definition json_scalar (v : pyval) : bool :=
  match v with
  | PNone | PBool _ | PInt _ | PStr _ => true
  | _ => false
  end.

(** The attributes of an event, as [getattr] sees them. *)
Definition event_attrs (e : DomainEvent) : list (string * pyval) :=
  ("aggregate_id", PUUID (aggregate_id e)) ::
  ("metadata", PMetadata (metadata e)) :: fields e.

Definition dict_get (d : pyval) (k : string) : option pyval :=
  match d with
  | PDict m => assoc k m
  | _ => None
  end.

(** [decoded] has every attribute of [e], with an equal value. *)
Definition field_wise_equal (e : DomainEvent) (decoded : pyval) : Prop :=
  forall k v, In (k, v) (event_attrs e) -> dict_get decoded k = Some v.

End Props.

(* ------------------------------------------------------------------ *)
(** ** Induction over Python values *)

(** The induction principle gives, for a container, the property of its
    items. *)
Section PyvalInd.
Import Domain.
Variable P : pyval -> Prop.
Hypothesis HNone : P PNone.
Hypothesis HBool : forall b, P (PBool b).
Hypothesis HInt : forall z, P (PInt z).
Hypothesis HStr : forall s, P (PStr s).
Hypothesis HList : forall l, Forall P l -> P (PList l).
Hypothesis HTuple : forall l, Forall P l -> P (PTuple l).
Hypothesis HDict : forall d, Forall (fun kv => P (snd kv)) d -> P (PDict d).
Hypothesis HUUID : forall u, P (PUUID u).
Hypothesis HDecimal : forall d, P (PDecimal d).
Hypothesis HDatetime : forall t, P (PDatetime t).
Hypothesis HEnum : forall cls name value, P (PEnum cls name value).
Hypothesis HMetadata : forall m, P (PMetadata m).
Hypothesis HObject :
  forall cls attrs, Forall (fun kv => P (snd kv)) attrs -> P (PObject cls attrs).

Fixpoint pyval_induction (v : pyval) : P v :=
  let items :=
    fix items (l : list pyval) : Forall P l :=
      match l with
      | [] => Forall_nil P
      | x :: l' => Forall_cons x (pyval_induction x) (items l')
      end in
  let members :=
    fix members (l : list (string * pyval)) : Forall (fun kv => P (snd kv)) l :=
      match l with
      | [] => Forall_nil _
      | kv :: l' =>
          Forall_cons (P := fun kv => P (snd kv)) kv
            (pyval_induction (snd kv)) (members l')
      end in
  match v with
  | PNone => HNone
  | PBool b => HBool b
  | PInt z => HInt z
  | PStr s => HStr s
  | PList l => HList l (items l)
  | PTuple l => HTuple l (items l)
  | PDict d => HDict d (members d)
  | PUUID u => HUUID u
  | PDecimal d => HDecimal d
  | PDatetime t => HDatetime t
  | PEnum cls name value => HEnum cls name value
  | PMetadata m => HMetadata m
  | PObject cls attrs => HObject cls attrs (members attrs)
  end.

End PyvalInd.

(* ------------------------------------------------------------------ *)
(** ** Values without foreign objects *)

Module Values.
Import Domain.

(** The values made of what the event classes declare for their fields:
    [None], booleans, integers, strings, identifiers, decimals, timestamps,
    enumeration members, the metadata record, and lists, tuples and dicts of
    these; no instance of another class anywhere. *)
Fixpoint object_free (v : pyval) : bool :=
  match v with
  | PList l | PTuple l =>
      (fix all (l : list pyval) : bool :=
         match l with
         | [] => true
         | x :: l' => object_free x && all l'
         end) l
  | PDict d =>
      (fix all (l : list (string * pyval)) : bool :=
         match l with
         | [] => true
         | (_, x) :: l' => object_free x && all l'
         end) d
  | PObject _ _ => false
  | _ => true
  end.

End Values.

(* ------------------------------------------------------------------ *)
(** ** The data lake client: paths and deduplication

    From [src/infrastructure/data_lake_client.py]: the path that
    [upload_event_to_bronze] builds and returns, the directory that
    [read_events_from_bronze] lists, the directory that
    [transform_bronze_to_silver] lists, and the loop of
    [transform_bronze_to_silver] that removes duplicates. A row of a Parquet
    table, as [table.to_pylist()] gives it, is a dict from column names to
    cells. *)

Module Lake.
Import Py.

Inductive lake_exn : Type :=
| KeyError (key : string)
| FormatTypeError.

Inductive outcome (A : Type) : Type :=
| Done (a : A)
| Failed (e : lake_exn).
Arguments Done {A} a.
Arguments Failed {A} e.

(** *** Paths *)

(** [str(n)] for an integer. *)
Definition str_int (z : Z) : string :=
  if z <? 0 then "-" ++ string_of_N (Z.abs_N z) else string_of_N (Z.to_N z).

(** [f"{n:02d}"] for an integer: the sign counts in the width. *)
Definition format_02d (z : Z) : string :=
  if z <? 0 then "-" ++ zfill 1 (Z.abs_N z) else zfill 2 (Z.to_N z).

(** [f"{day:02d}"] when [day] may be [None], whose [__format__] rejects the
    format. *)
Definition format_02d_opt (o : option Z) : outcome string :=
  match o with
  | Some z => Done (format_02d z)
  | None => Failed FormatTypeError
  end.

(** [partition_date.strftime("%Y%m%d_%H%M%S")], for the years from 1000 on,
    which every platform writes with four digits. *)
Definition strftime_stamp (d : datetime) : string :=
  zfill 4 (year d) ++ zfill 2 (month d) ++ zfill 2 (day d) ++ "_" ++
  zfill 2 (hour d) ++ zfill 2 (minute d) ++ zfill 2 (second d).

(** [partition_path] of [upload_event_to_bronze]. *)
Definition upload_partition_path (d : datetime) : string :=
  "year=" ++ str_int (Z.of_N (year d)) ++
  "/month=" ++ format_02d (Z.of_N (month d)) ++
  "/day=" ++ format_02d (Z.of_N (day d)).

(** The path [upload_event_to_bronze] uploads to and returns;
    [partition_date or datetime.now(timezone.utc)] takes the date given, a
    datetime being always true, and the clock otherwise. *)
Definition upload_full_path (partition_date : option datetime)
    (now : datetime) : string :=
  let partition_date :=
    match partition_date with
    | Some d => d
    | None => now
    end in
  let partition_path := upload_partition_path partition_date in
  let filename := strftime_stamp partition_date ++ ".parquet" in
  partition_path ++ "/" ++ filename.

(** [partition_path] of [read_events_from_bronze]: [if day] is false for
    [None] and for 0. *)
Definition read_partition_path (year month : Z) (day : option Z) : string :=
  match day with
  | Some d =>
      if d =? 0
      then "year=" ++ str_int year ++ "/month=" ++ format_02d month
      else "year=" ++ str_int year ++ "/month=" ++ format_02d month ++
           "/day=" ++ format_02d d
  | None => "year=" ++ str_int year ++ "/month=" ++ format_02d month
  end.

(** [bronze_path] of [transform_bronze_to_silver]. *)
Definition silver_source_path (event_type : string) (year month : Z)
    (day : option Z) : outcome string :=
  match format_02d_opt day with
  | Done dd =>
      Done ("events/" ++ event_type ++ "/year=" ++ str_int year ++
            "/month=" ++ format_02d month ++ "/day=" ++ dd)
  | Failed e => Failed e
  end.

(** *** Deduplication by event id *)

Inductive cell : Type :=
| CNull
| CStr (s : string)
| CInt (z : Z)
| CTimestamp (ms : Z).

Definition cell_eqb (a b : cell) : bool :=
  match a, b with
  | CNull, CNull => true
  | CStr s, CStr s' => String.eqb s s'
  | CInt z, CInt z' => Z.eqb z z'
  | CTimestamp t, CTimestamp t' => Z.eqb t t'
  | _, _ => false
  end.

Definition row : Type := list (string * cell).

(** [event["event_id"]]. *)
Definition event_id_of (event : row) : outcome cell :=
  match Domain.assoc "event_id" event with
  | Some id => Done id
  | None => Failed (KeyError "event_id")
  end.

(** [id in seen_ids]. *)
Definition seen (id : cell) (seen_ids : list cell) : bool :=
  existsb (cell_eqb id) seen_ids.

(** The loop [for event in all_events] over the set [seen_ids] and the list
    [unique_events]. *)
Fixpoint dedupe_loop (all_events : list row) (seen_ids : list cell)
    (unique_events : list row) : outcome (list row) :=
  match all_events with
  | [] => Done unique_events
  | event :: rest =>
      match event_id_of event with
      | Failed e => Failed e
      | Done id =>
          if seen id seen_ids
          then dedupe_loop rest seen_ids unique_events
          else dedupe_loop rest (id :: seen_ids) (unique_events ++ [event])
      end
  end.

(** [unique_events] when the loop is over, from an empty set and an empty
    list. *)
Definition deduplicate (all_events : list row) : outcome (list row) :=
  dedupe_loop all_events [] [].

(** [duplicates_removed]. *)
Definition duplicates_removed (all_events unique_events : list row) : Z :=
  Z.of_nat (List.length all_events) - Z.of_nat (List.length unique_events).

(** [l] is [l'] with some items left out. *)
Inductive subseq {A : Type} : list A -> list A -> Prop :=
| subseq_nil : subseq [] []
| subseq_skip : forall x l l', subseq l l' -> subseq l (x :: l')
| subseq_take : forall x l l', subseq l l' -> subseq (x :: l) (x :: l').

End Lake.

(* ------------------------------------------------------------------ *)
(** ** Sample data *)

Module Sample.
Import Py Domain Encoder Db Store Relay.

Definition tenant_a : UUID := 0x00000000000000000000000000000001%N.
Definition tenant_b : UUID := 0x00000000000000000000000000000002%N.
Definition account_1 : UUID := 0x018f3c2a7b1e7c3d9a4f0123456789ab%N.

Definition noon : datetime := mkDatetime 2024 1 15 12 0 0 0 (Some 0).

Definition meta (id : UUID) : EventMetadata :=
  mkEventMetadata id 0x0000000000000000000000000000c0de%N noon None None 1.

(** [AccountCreated(account_name="Ops", account_type=CHECKING,
     currency=NOK, initial_balance=Decimal("10000.00"))]. *)
Definition account_created (id : UUID) : DomainEvent :=
  mkDomainEvent "AccountCreated" account_1 (meta id)
    [ ("account_name", PStr "Ops");
      ("account_type", PEnum "AccountType" "CHECKING" "checking");
      ("currency", PEnum "Currency" "NOK" "NOK");
      ("initial_balance", PDecimal (mkDecimal false "1000000" (ExpInt (-2))));
      ("organization_id", PNone);
      ("department_id", PNone) ].

(** [AccountRenamed(old_name="Ops", new_name="Operations")]. *)
Definition account_renamed (id : UUID) : DomainEvent :=
  mkDomainEvent "AccountRenamed" account_1 (meta id)
    [ ("old_name", PStr "Ops"); ("new_name", PStr "Operations") ].

(** [AccountClosed(reason="moved", final_balance=Decimal("10.00"))]. *)
Definition account_closed (id : UUID) : DomainEvent :=
  mkDomainEvent "AccountClosed" account_1 (meta id)
    [ ("reason", PStr "moved");
      ("final_balance", PDecimal (mkDecimal false "1000" (ExpInt (-2)))) ].

(** The database after one append of two events to a fresh aggregate. *)
Definition db_two : database :=
  snd (append_events account_1 "Account" 0
         [account_created 101%N; account_renamed 102%N] tenant_a 1000
         Db.empty).

(** The same aggregate id under a second tenant. *)
Definition db_collision : database :=
  snd (append_events account_1 "Account" 0 [account_created 201%N] tenant_b
         2000 db_two).

(** An object of a class that is no enumeration and has a [value]. *)
Definition money : pyval :=
  PObject "Money"
    [ ("currency", PStr "NOK");
      ("value", PDecimal (mkDecimal false "1250" (ExpInt (-2)))) ].

(** A broker that is down for the whole run. *)
Definition broker_down : KafkaProducer :=
  mkKafkaProducer (fun _ _ => false) [].

(** A broker that refuses the first message it is handed and acknowledges
    every later one. *)
Definition broker_flaky : KafkaProducer :=
  mkKafkaProducer (fun n _ => negb (Nat.eqb n 0)) [].

End Sample.

(* ------------------------------------------------------------------ *)
(** * Properties *)

Import Py Domain Encoder Db Store Relay Props.

Open Scope list_scope.

(** ** The error monad and the transactional scope *)

Lemma database_eta (db : database) :
  mkDatabase (events db) (outbox db) (outbox_id_seq db) = db.
Proof. destruct db; reflexivity. Qed.

Lemma mapM_length {A B} (f : A -> result B) (l : list A) (l' : list B) :
  mapM f l = Ok l' -> List.length l' = List.length l.
Proof.
  revert l'; induction l as [|a l IH]; simpl; intros l' H.
  - inversion H; reflexivity.
  - destruct (f a); simpl in H; try discriminate.
    destruct (mapM f l); simpl in H; try discriminate.
    inversion H; subst; simpl; f_equal; apply IH; reflexivity.
Qed.

Lemma bind_ok {A B} (m : conn A) (k : A -> conn B) db b db' :
  bind m k db = (Ok b, db') ->
  exists a db1, m db = (Ok a, db1) /\ k a db1 = (Ok b, db').
Proof.
  unfold bind. destruct (m db) as [[a|e] db1]; intros H; [|discriminate].
  exists a, db1; auto.
Qed.

Lemma lift_ok {A} (r : result A) db a db' :
  lift r db = (Ok a, db') -> r = Ok a /\ db' = db.
Proof. unfold lift; intros H; inversion H; auto. Qed.

(** A row that [INSERT INTO events] accepts passes the three constraints. *)
Lemma insert_event_ok r db u db' :
  insert_event r db = (Ok u, db') ->
  0 < ev_version r /\
  existsb (fun r' => N.eqb (ev_event_id r') (ev_event_id r)) (events db) = false /\
  existsb (same_version_key r) (events db) = false /\
  db' = mkDatabase (events db ++ [r]) (outbox db) (outbox_id_seq db).
Proof.
  unfold insert_event.
  destruct (Z.ltb_spec 0 (ev_version r)) as [Hpos|Hneg]; simpl; [|discriminate].
  destruct (existsb _ (events db)); [discriminate|].
  destruct (existsb _ (events db)); [discriminate|].
  intros H; inversion H; auto.
Qed.

(** ** [append_events] *)

Section AppendEvents.
Variables (aggregate_id : UUID) (aggregate_type : string) (tenant_id : UUID).
Variable now : Z.

Let encode (event : DomainEvent) : result json := json_dumps (asdict event).

(** The version check, made explicit. *)
Lemma append_events_unfold expected_version new_events db :
  append_events aggregate_id aggregate_type expected_version new_events
    tenant_id now db =
  if current_version db aggregate_id tenant_id =? expected_version
  then transaction
         (append_loop aggregate_id aggregate_type tenant_id now new_events
            expected_version) db
  else (Raise (ConcurrencyError aggregate_id expected_version
                 (current_version db aggregate_id tenant_id)), db).
Proof.
  unfold append_events, transaction, bind, fetchval_current_version, raise.
  destruct (current_version db aggregate_id tenant_id =? expected_version);
    simpl; [reflexivity|].
  unfold rollback; rewrite database_eta; reflexivity.
Qed.

(** What a loop that runs to its end has written. *)
Lemma append_loop_ok new_events :
  forall version db v db',
    append_loop aggregate_id aggregate_type tenant_id now new_events version db
    = (Ok v, db') ->
    exists datas,
      mapM encode new_events = Ok datas /\
      events db' =
        events db ++ new_event_rows aggregate_id aggregate_type tenant_id
                       new_events datas version /\
      outbox db' =
        outbox db ++ new_outbox_rows aggregate_type tenant_id now new_events
                       datas (outbox_id_seq db) /\
      outbox_id_seq db' = outbox_id_seq db + Z.of_nat (List.length new_events) /\
      v = version + Z.of_nat (List.length new_events).
Proof.
  induction new_events as [|event rest IH]; intros version db v db' H.
  - simpl in H. inversion H; subst. exists []. simpl.
    rewrite !app_nil_r. repeat split; lia.
  - cbn [append_loop] in H.
    apply bind_ok in H. destruct H as (data & db1 & Henc & H).
    apply lift_ok in Henc. destruct Henc as [Henc ->].
    apply bind_ok in H. destruct H as (u & db2 & Hins & H).
    apply insert_event_ok in Hins. destruct Hins as (_ & _ & _ & ->).
    apply bind_ok in H. destruct H as (u' & db3 & Hout & H).
    unfold insert_outbox in Hout. inversion Hout; subst db3; clear Hout.
    apply IH in H. cbn [events outbox outbox_id_seq] in H.
    destruct H as (datas & Hm & He & Ho & Hs & Hv).
    exists (data :: datas). cbn [mapM]. unfold encode at 1. rewrite Henc.
    cbn [rbind]. rewrite Hm. cbn [rbind new_event_rows new_outbox_rows].
    rewrite He, Ho, <- !app_assoc. cbn [app List.length].
    repeat split; lia.
Qed.

(** A loop that raises has consumed sequence values at most. *)
Lemma transaction_raise {A} (block : conn A) db e db' :
  transaction block db = (Raise e, db') ->
  events db' = events db /\ outbox db' = outbox db.
Proof.
  unfold transaction. destruct (block db) as [[a|e'] db'']; intros H;
    inversion H; subst; simpl; auto.
Qed.

Lemma transaction_ok {A} (block : conn A) db a db' :
  transaction block db = (Ok a, db') -> block db = (Ok a, db').
Proof.
  unfold transaction. destruct (block db) as [[a'|e'] db'']; intros H;
    inversion H; subst; reflexivity.
Qed.

Lemma append_events_ok expected_version new_events db v db' :
  append_events aggregate_id aggregate_type expected_version new_events
    tenant_id now db = (Ok v, db') ->
  current_version db aggregate_id tenant_id = expected_version /\
  append_loop aggregate_id aggregate_type tenant_id now new_events
    expected_version db = (Ok v, db').
Proof.
  rewrite append_events_unfold.
  destruct (Z.eqb_spec (current_version db aggregate_id tenant_id)
              expected_version) as [E|E]; [|discriminate].
  intros H; split; [exact E|]. apply transaction_ok; exact H.
Qed.

Lemma append_events_raise expected_version new_events db e db' :
  append_events aggregate_id aggregate_type expected_version new_events
    tenant_id now db = (Raise e, db') ->
  events db' = events db /\ outbox db' = outbox db.
Proof.
  rewrite append_events_unfold.
  destruct (current_version db aggregate_id tenant_id =? expected_version).
  - apply transaction_raise.
  - intros H; inversion H; subst; auto.
Qed.

(** Position by position, the rows written for a batch. *)
Lemma new_event_rows_nth new_events :
  forall datas version i event,
    List.length datas = List.length new_events ->
    mapM encode new_events = Ok datas ->
    nth_error new_events i = Some event ->
    exists row,
      nth_error (new_event_rows aggregate_id aggregate_type tenant_id
                   new_events datas version) i = Some row /\
      row_of_event event row /\
      ev_version row = version + Z.of_nat i + 1 /\
      ev_aggregate_id row = aggregate_id /\
      ev_aggregate_type row = aggregate_type /\
      ev_tenant_id row = tenant_id.
Proof.
  induction new_events as [|e rest IH]; intros datas version i event Hl Hm Hn.
  - destruct i; discriminate.
  - destruct datas as [|d datas]; [discriminate|].
    cbn [mapM] in Hm. unfold encode at 1 in Hm.
    destruct (json_dumps (asdict e)) as [d'|] eqn:He; [|discriminate].
    cbn [rbind] in Hm.
    destruct (mapM encode rest) as [ds|] eqn:Hr; [|discriminate].
    cbn [rbind] in Hm. inversion Hm; subst d' ds.
    destruct i as [|i].
    + inversion Hn; subst e. eexists; split; [reflexivity|].
      unfold row_of_event; cbn. repeat split; auto; lia.
    + cbn [nth_error] in Hn. cbn [new_event_rows nth_error].
      destruct (IH datas (version + 1) i event) as (row & H1 & H2 & H3 & H4);
        auto.
      exists row. split; [exact H1|]. split; [exact H2|].
      split; [lia|exact H4].
Qed.

Lemma new_event_rows_length new_events :
  forall datas version,
    List.length datas = List.length new_events ->
    List.length (new_event_rows aggregate_id aggregate_type tenant_id
                   new_events datas version) = List.length new_events.
Proof.
  induction new_events as [|e rest IH]; intros [|d datas] version Hl;
    simpl in *; try discriminate; auto.
Qed.

Lemma new_rows_paired new_events :
  forall datas version id,
    Forall2 paired
      (new_event_rows aggregate_id aggregate_type tenant_id new_events datas
         version)
      (new_outbox_rows aggregate_type tenant_id now new_events datas id).
Proof.
  induction new_events as [|e rest IH]; intros [|d datas] version id;
    simpl; constructor; auto.
  unfold paired; simpl; auto.
Qed.

Lemma new_rows_of_events new_events :
  forall datas version,
    mapM encode new_events = Ok datas ->
    Forall2 row_of_event new_events
      (new_event_rows aggregate_id aggregate_type tenant_id new_events datas
         version).
Proof.
  induction new_events as [|e rest IH]; intros datas version Hm.
  - simpl in Hm. inversion Hm. constructor.
  - cbn [mapM] in Hm. unfold encode at 1 in Hm.
    destruct (json_dumps (asdict e)) as [d'|] eqn:He; [|discriminate].
    cbn [rbind] in Hm.
    destruct (mapM encode rest) as [ds|] eqn:Hr; [|discriminate].
    cbn [rbind] in Hm. inversion Hm; subst.
    cbn [new_event_rows]. constructor; [|apply IH; reflexivity].
    unfold row_of_event; cbn. auto.
Qed.

End AppendEvents.

Lemma paired_event_ids erows orows :
  Forall2 paired erows orows ->
  map ob_event_id orows = map ev_event_id erows.
Proof.
  induction 1 as [|er orow erows orows [Hid _] _ IH]; simpl; congruence.
Qed.

(** C1: when the current version of the stream, [COALESCE(MAX(version), 0)]
    over the rows of the aggregate under the tenant, is not the expected
    one, [append_events] raises [ConcurrencyError] with the aggregate id,
    the expected version and the current version, and the transaction
    leaves the [events] and [outbox] tables as they were. *)
Theorem append_events_conflict :
  forall db aggregate_id aggregate_type expected_version new_events tenant_id
         now,
    current_version db aggregate_id tenant_id <> expected_version ->
    let out := append_events aggregate_id aggregate_type expected_version
                 new_events tenant_id now db in
    fst out = Raise (ConcurrencyError aggregate_id expected_version
                       (current_version db aggregate_id tenant_id)) /\
    events (snd out) = events db /\
    outbox (snd out) = outbox db.
Proof.
  intros db aggregate_id aggregate_type expected_version new_events tenant_id
    now Hne out.
  subst out. rewrite append_events_unfold.
  destruct (Z.eqb_spec (current_version db aggregate_id tenant_id)
              expected_version) as [E|_]; [contradiction|].
  simpl; auto.
Qed.

Lemma append_events_conflict_witness :
  current_version Sample.db_two Sample.account_1 Sample.tenant_a <> 1 /\
  fst (append_events Sample.account_1 "Account" 1
         [Sample.account_closed 103%N] Sample.tenant_a 2000 Sample.db_two)
  = Raise (ConcurrencyError Sample.account_1 1 2).
Proof.
  split.
  - vm_compute; lia.
  - apply (append_events_conflict Sample.db_two Sample.account_1 "Account" 1
             [Sample.account_closed 103%N] Sample.tenant_a 2000).
    vm_compute; lia.
Defined.


(** C3: an [append_events] that returns found the current version equal to
    the expected one, has written the [i]-th event of [new_events] (counted
    from 1, that is the event at position [i - 1]) at version
    [current_version + i], and returns [current_version + n] for [n]
    events. *)
Theorem append_events_assigns_versions :
  forall db aggregate_id aggregate_type expected_version new_events tenant_id
         now v db',
    append_events aggregate_id aggregate_type expected_version new_events
      tenant_id now db = (Ok v, db') ->
    let current := current_version db aggregate_id tenant_id in
    current = expected_version /\
    v = current + Z.of_nat (List.length new_events) /\
    exists rows,
      events db' = events db ++ rows /\
      List.length rows = List.length new_events /\
      forall i event,
        nth_error new_events i = Some event ->
        exists row,
          nth_error rows i = Some row /\
          row_of_event event row /\
          ev_version row = current + Z.of_nat (S i).
Proof.
  intros db aggregate_id aggregate_type expected_version new_events tenant_id
    now v db' H current.
  apply append_events_ok in H. destruct H as [Hc H].
  apply append_loop_ok in H. destruct H as (datas & Hm & He & _ & _ & Hv).
  subst current. rewrite Hc.
  split; [reflexivity|]. split; [exact Hv|].
  pose proof (mapM_length _ _ _ Hm) as Hl.
  eexists. split; [exact He|].
  split; [apply new_event_rows_length; exact Hl|].
  intros i event Hn.
  destruct (new_event_rows_nth aggregate_id aggregate_type tenant_id
              new_events datas expected_version i event Hl Hm Hn)
    as (row & H1 & H2 & H3 & _).
  exists row. split; [exact H1|]. split; [exact H2|]. lia.
Qed.

Lemma append_events_assigns_versions_witness :
  append_events Sample.account_1 "Account" 2 [Sample.account_closed 103%N]
    Sample.tenant_a 2000 Sample.db_two
  = (Ok 3,
     snd (append_events Sample.account_1 "Account" 2
            [Sample.account_closed 103%N] Sample.tenant_a 2000 Sample.db_two)) /\
  current_version Sample.db_two Sample.account_1 Sample.tenant_a = 2 /\
  3 = current_version Sample.db_two Sample.account_1 Sample.tenant_a
      + Z.of_nat (List.length [Sample.account_closed 103%N]).
Proof.
  assert (H : append_events Sample.account_1 "Account" 2
                [Sample.account_closed 103%N] Sample.tenant_a 2000
                Sample.db_two
              = (Ok 3,
                 snd (append_events Sample.account_1 "Account" 2
                        [Sample.account_closed 103%N] Sample.tenant_a 2000
                        Sample.db_two))) by (vm_compute; reflexivity).
  split; [exact H|].
  destruct (append_events_assigns_versions _ _ _ _ _ _ _ _ _ H) as (Hc & Hv & _).
  split; [exact Hc | exact Hv].
Defined.

(** ** Integrity of the database *)

Lemma same_version_key_iff r r' :
  same_version_key r r' = true <-> vkey r = vkey r'.
Proof.
  unfold same_version_key, vkey.
  rewrite !andb_true_iff, !N.eqb_eq, Z.eqb_eq.
  split; [intros [[-> ->] ->]; reflexivity | intros H; inversion H; auto].
Qed.

Lemma nodupb_NoDup {A B} (eqb : A -> A -> bool) (f : A -> B) :
  (forall x y, eqb x y = true <-> f x = f y) ->
  forall l, nodupb eqb l = true <-> NoDup (map f l).
Proof.
  intros Heq; induction l as [|x l IH]; simpl.
  - split; [constructor | reflexivity].
  - rewrite andb_true_iff, negb_true_iff, IH. split.
    + intros [Hx Hl]; constructor; [|exact Hl].
      intros Hin. apply in_map_iff in Hin. destruct Hin as (y & Hy & Hin).
      assert (existsb (eqb x) l = true); [|congruence].
      apply existsb_exists. exists y. split; [exact Hin|].
      apply Heq; congruence.
    + intros H; inversion H as [|? ? Hx Hl]; subst. split; [|exact Hl].
      destruct (existsb (eqb x) l) eqn:E; [|reflexivity].
      apply existsb_exists in E. destruct E as (y & Hin & Hy).
      exfalso; apply Hx. apply Heq in Hy. rewrite Hy. apply in_map; exact Hin.
Qed.

Lemma forallb_Forall {A} (f : A -> bool) (P : A -> Prop) :
  (forall x, f x = true <-> P x) ->
  forall l, forallb f l = true <-> Forall P l.
Proof.
  intros H l. rewrite forallb_forall, Forall_forall.
  split; intros Hl x Hx; apply H, Hl, Hx.
Qed.

Lemma db_wf_integrity db : db_wf db = true <-> integrity db.
Proof.
  unfold db_wf. rewrite !andb_true_iff.
  rewrite (forallb_Forall _ (fun r => 0 < ev_version r))
    by (intros; apply Z.ltb_lt).
  rewrite (forallb_Forall _ (fun r => ob_id r < outbox_id_seq db))
    by (intros; apply Z.ltb_lt).
  rewrite (nodupb_NoDup N.eqb (fun x => x)) by (intros; apply N.eqb_eq).
  rewrite (nodupb_NoDup Z.eqb (fun x => x)) by (intros; apply Z.eqb_eq).
  rewrite (nodupb_NoDup same_version_key vkey) by apply same_version_key_iff.
  rewrite !map_id.
  split.
  - intros [[[[H1 H2] H3] H4] H5]; constructor; assumption.
  - intros [H1 H2 H3 H4 H5]; auto.
Qed.

Lemma NoDup_snoc {A} (l : list A) (x : A) :
  NoDup l -> ~ In x l -> NoDup (l ++ [x]).
Proof.
  intros Hl Hx. apply NoDup_app; [exact Hl | repeat constructor; auto |].
  intros y Hy [<-|[]]; auto.
Qed.

Lemma existsb_false_not_in {A B} (f : A -> B) (p : A -> bool) (b : B) l :
  (forall a, p a = true <-> f a = b) ->
  existsb p l = false -> ~ In b (map f l).
Proof.
  intros Hp Hex Hin. apply in_map_iff in Hin. destruct Hin as (a & Ha & Hin).
  assert (existsb p l = true); [|congruence].
  apply existsb_exists. exists a; split; [exact Hin | apply Hp, Ha].
Qed.

Lemma insert_event_integrity r db u db' :
  integrity db -> insert_event r db = (Ok u, db') -> integrity db'.
Proof.
  intros [H1 H2 H3 H4 H5] H. apply insert_event_ok in H.
  destruct H as (Hpos & Hid & Hkey & ->).
  constructor; cbn [events outbox outbox_id_seq]; auto.
  - apply Forall_app; split; [exact H1 | repeat constructor; exact Hpos].
  - rewrite map_app. apply NoDup_snoc; [exact H2|].
    eapply existsb_false_not_in; [|exact Hid].
    intros a; apply N.eqb_eq.
  - rewrite map_app. apply NoDup_snoc; [exact H3|].
    eapply existsb_false_not_in; [|exact Hkey].
    intros a. rewrite same_version_key_iff. split; congruence.
Qed.

Lemma insert_event_raise r db e db' :
  insert_event r db = (Raise e, db') -> db' = db.
Proof.
  unfold insert_event.
  destruct (negb (0 <? ev_version r)); [intros H; inversion H; auto|].
  destruct (existsb _ (events db)); [intros H; inversion H; auto|].
  destruct (existsb _ (events db)); [intros H; inversion H; auto|].
  discriminate.
Qed.

Lemma insert_outbox_integrity now event_id aggregate_type event_type
    event_data tenant_id db :
  integrity db ->
  integrity (snd (insert_outbox now event_id aggregate_type event_type
                    event_data tenant_id db)).
Proof.
  intros [H1 H2 H3 H4 H5].
  constructor; cbn [snd insert_outbox events outbox outbox_id_seq]; auto.
  - rewrite map_app. apply NoDup_snoc; [exact H4|]. cbn [map ob_id].
    intros Hin. apply in_map_iff in Hin. destruct Hin as (r & Hr & Hin).
    rewrite Forall_forall in H5. specialize (H5 r Hin). lia.
  - apply Forall_app; split.
    + eapply Forall_impl; [|exact H5]. cbn beta. intros; lia.
    + repeat constructor. cbn [ob_id]. lia.
Qed.

(** The loop keeps the integrity of the state it works on, whether it ends
    or raises, and only moves the sequence forward. *)
Lemma append_loop_integrity aggregate_id aggregate_type tenant_id now
    new_events :
  forall version db r db',
    integrity db ->
    append_loop aggregate_id aggregate_type tenant_id now new_events version db
    = (r, db') ->
    integrity db' /\ outbox_id_seq db <= outbox_id_seq db'.
Proof.
  induction new_events as [|event rest IH]; intros version db r db' Hwf H.
  - simpl in H. inversion H; subst. split; [exact Hwf | lia].
  - cbn [append_loop] in H. unfold bind at 1, lift in H.
    destruct (json_dumps (asdict event)) as [data|e].
    2:{ inversion H; subst. split; [exact Hwf | lia]. }
    unfold bind at 1 in H.
    destruct (insert_event _ db) as [[u|e] db1] eqn:Hins.
    2:{ apply insert_event_raise in Hins. inversion H; subst.
        split; [exact Hwf | lia]. }
    pose proof (insert_event_integrity _ _ _ _ Hwf Hins) as Hwf1.
    apply insert_event_ok in Hins. destruct Hins as (_ & _ & _ & Hdb1).
    unfold bind at 1 in H.
    pose proof (insert_outbox_integrity now (event_id (metadata event))
                  aggregate_type (class_name event) data tenant_id db1 Hwf1)
      as Hwf2.
    destruct (insert_outbox now (event_id (metadata event)) aggregate_type
                (class_name event) data tenant_id db1) as [[u'|e'] db2] eqn:Hout;
      unfold insert_outbox in Hout; inversion Hout; subst db2; clear Hout.
    apply IH in H; [|exact Hwf2].
    destruct H as [Hwf' Hseq]. split; [exact Hwf'|].
    subst db1. cbn [outbox_id_seq] in Hseq. lia.
Qed.

Lemma rollback_integrity before after :
  integrity before -> outbox_id_seq before <= outbox_id_seq after ->
  integrity (rollback before after).
Proof.
  intros [H1 H2 H3 H4 H5] Hseq.
  constructor; cbn [rollback events outbox outbox_id_seq]; auto.
  eapply Forall_impl; [|exact H5]. cbn beta. intros; lia.
Qed.

Lemma append_events_integrity aggregate_id aggregate_type expected_version
    new_events tenant_id now db :
  integrity db ->
  integrity (snd (append_events aggregate_id aggregate_type expected_version
                    new_events tenant_id now db)).
Proof.
  intros Hwf. rewrite append_events_unfold.
  destruct (current_version db aggregate_id tenant_id =? expected_version);
    [|exact Hwf].
  unfold transaction.
  destruct (append_loop aggregate_id aggregate_type tenant_id now new_events
              expected_version db) as [[v|e] db'] eqn:H;
    apply append_loop_integrity in H; auto; destruct H as [H1 H2];
    cbn [snd]; [exact H1 | apply rollback_integrity; auto].
Qed.

(** ** [ORDER BY] *)

Section OrderBy.
Context {A : Type} (key : A -> Z).

Let key_le (a b : A) : Prop := key a <= key b.

Lemma insert_by_perm x l : Permutation (insert_by key x l) (x :: l).
Proof.
  induction l as [|y l IH]; simpl; [reflexivity|].
  destruct (key x <=? key y); [reflexivity|].
  rewrite IH. apply perm_swap.
Qed.

Lemma order_by_perm l : Permutation (order_by key l) l.
Proof.
  induction l as [|x l IH]; simpl; [reflexivity|].
  rewrite insert_by_perm. apply perm_skip, IH.
Qed.

Lemma insert_by_sorted x l :
  StronglySorted key_le l -> StronglySorted key_le (insert_by key x l).
Proof.
  induction 1 as [|y l Hl IH Hy]; simpl.
  - repeat constructor.
  - destruct (Z.leb_spec (key x) (key y)) as [Hxy|Hxy].
    + constructor; [constructor; assumption|].
      constructor; [exact Hxy|].
      eapply Forall_impl; [|exact Hy]. unfold key_le; intros; lia.
    + constructor; [exact IH|].
      eapply Permutation_Forall; [symmetry; apply insert_by_perm|].
      constructor; [unfold key_le; lia | exact Hy].
Qed.

Lemma order_by_sorted l : StronglySorted key_le (order_by key l).
Proof.
  induction l as [|x l IH]; simpl; [constructor | apply insert_by_sorted, IH].
Qed.

Lemma sorted_firstn n l :
  StronglySorted key_le l -> StronglySorted key_le (firstn n l).
Proof.
  intros H; revert n; induction H as [|x l Hl IH Hx]; intros [|n]; simpl;
    try constructor; auto.
  rewrite Forall_forall in *. intros y Hy. apply Hx.
  rewrite <- (firstn_skipn n l). apply in_or_app; auto.
Qed.

(** What [LIMIT] leaves behind is no older than what it keeps. *)
Lemma sorted_skipn n l :
  StronglySorted key_le l ->
  Forall (fun later => Forall (fun r => key_le r later) (firstn n l))
         (skipn n l).
Proof.
  intros H; revert n; induction H as [|x l Hl IH Hx]; intros [|n]; simpl.
  - constructor.
  - constructor.
  - apply Forall_forall; intros; constructor.
  - specialize (IH n). rewrite Forall_forall in *. intros y Hy.
    constructor; [|apply IH, Hy].
    apply Hx. rewrite <- (firstn_skipn n l). apply in_or_app; auto.
Qed.

(** A list that is sorted already comes out as it is: every sorted
    permutation of a table is an answer of the query for some scan. *)
Lemma order_by_sorted_id l : StronglySorted key_le l -> order_by key l = l.
Proof.
  induction 1 as [|x l Hl IH Hx]; simpl; [reflexivity|].
  rewrite IH. destruct l as [|y l']; simpl; [reflexivity|].
  inversion Hx as [|? ? Hxy _]; subst. unfold key_le in Hxy.
  destruct (Z.leb_spec (key x) (key y)); [reflexivity | lia].
Qed.

(** With pairwise different keys the order is strict. *)
Lemma sorted_strict l :
  StronglySorted key_le l -> NoDup (map key l) ->
  StronglySorted (fun a b => key a < key b) l.
Proof.
  induction 1 as [|x l Hl IH Hx]; intros Hnd; [constructor|].
  simpl in Hnd. inversion Hnd as [|? ? Hnotin Hnd']; subst.
  constructor; [apply IH, Hnd'|].
  rewrite Forall_forall in *. intros y Hy.
  specialize (Hx y Hy). unfold key_le in Hx.
  assert (key x <> key y); [|lia].
  intros E. apply Hnotin. rewrite E. apply in_map, Hy.
Qed.

End OrderBy.

Lemma Permutation_filter {A} (f : A -> bool) (l l' : list A) :
  Permutation l l' -> Permutation (filter f l) (filter f l').
Proof.
  induction 1 as [|x l l' _ IH|x y l|l l' l'' _ IH1 _ IH2]; simpl.
  - constructor.
  - destruct (f x); [apply perm_skip|]; exact IH.
  - destruct (f x), (f y); try reflexivity. apply perm_swap.
  - etransitivity; eassumption.
Qed.

Lemma NoDup_firstn {A} n (l : list A) : NoDup l -> NoDup (firstn n l).
Proof.
  intros H. rewrite <- (firstn_skipn n l) in H.
  eapply NoDup_app_remove_r; exact H.
Qed.

(** ** [process_outbox] *)

Lemma filter_filter {A} (f g : A -> bool) (l : list A) :
  filter f (filter g l) = filter (fun x => g x && f x) l.
Proof.
  induction l as [|x l IH]; simpl; [reflexivity|].
  destruct (g x); simpl; [destruct (f x)|]; rewrite IH; reflexivity.
Qed.

(** The loop over the fetched rows: every row is handed to the producer, in
    order; the rows whose id was acknowledged are gone from the table and
    counted. *)
Lemma process_rows_spec rows :
  forall c db kp c' db' kp',
    process_rows rows c db kp = (c', db', kp') ->
    let oks := outcomes (acks kp) (List.length (calls kp)) rows in
    acks kp' = acks kp /\
    calls kp' = calls kp ++ combine (map message_of_row rows) oks /\
    c' = c + count_true oks /\
    events db' = events db /\
    outbox_id_seq db' = outbox_id_seq db /\
    outbox db' = filter (fun r => negb (acknowledged rows oks r)) (outbox db).
Proof.
  induction rows as [|row rest IH]; intros c db kp c' db' kp' H.
  - simpl in H. inversion H; subst. cbn. rewrite app_nil_r.
    unfold count_true; cbn.
    repeat split; try lia.
    symmetry. apply forallb_filter_id. apply forallb_forall; auto.
  - cbn [process_rows] in H. unfold send_and_wait in H.
    cbn [outcomes map combine].
    destruct (acks kp (List.length (calls kp)) (message_of_row row)) eqn:Hack;
      apply IH in H; cbn [acks calls] in H;
      rewrite length_app, Nat.add_1_r in H; cbn [List.length] in H;
      destruct H as (Ha & Hc & Hn & He & Hs & Ho);
      (split; [exact Ha|]); (split; [rewrite Hc, <- app_assoc; reflexivity|]).
    + split; [unfold count_true in *; cbn [filter List.length]; lia|].
      cbn [delete_outbox snd events outbox outbox_id_seq] in *.
      split; [exact He|]. split; [exact Hs|].
      rewrite Ho, filter_filter. apply filter_ext. intros r.
      unfold acknowledged. cbn [combine existsb fst snd andb].
      rewrite negb_orb, (Z.eqb_sym (ob_id row)). reflexivity.
    + split; [unfold count_true in *; cbn [filter List.length]; lia|].
      split; [exact He|]. split; [exact Hs|].
      rewrite Ho. apply filter_ext. intros r.
      unfold acknowledged. cbn [combine existsb fst snd andb orb]. reflexivity.
Qed.

Lemma outcomes_length acks n rows :
  List.length (outcomes acks n rows) = List.length rows.
Proof.
  revert n; induction rows as [|r rows IH]; intros n; simpl; auto.
Qed.

(** A fetched row counts as acknowledged exactly when the outcome at its
    own position is an acknowledgment, ids being unique. *)
Lemma acknowledged_nth rows :
  forall oks i row,
    NoDup (map ob_id rows) ->
    List.length oks = List.length rows ->
    nth_error rows i = Some row ->
    (acknowledged rows oks row = true <-> nth_error oks i = Some true).
Proof.
  unfold acknowledged.
  induction rows as [|r rows IH]; intros oks i row Hnd Hl Hn.
  - destruct i; discriminate.
  - destruct oks as [|ok oks]; [discriminate|].
    simpl in Hnd. inversion Hnd as [|? ? Hnotin Hnd']; subst.
    cbn [combine existsb fst snd]. rewrite orb_true_iff, andb_true_iff, Z.eqb_eq.
    destruct i as [|i]; cbn [nth_error] in *.
    + inversion Hn; subst r. split.
      * intros [[-> _]|Hex]; [reflexivity|].
        exfalso. apply existsb_exists in Hex.
        destruct Hex as ([r' ok'] & Hin & Hp). cbn [fst snd] in Hp.
        apply andb_true_iff in Hp. destruct Hp as [_ Hp].
        apply Z.eqb_eq in Hp. apply Hnotin. rewrite <- Hp.
        apply in_map. eapply in_combine_l; exact Hin.
      * intros H; inversion H; auto.
    + rewrite <- (IH oks i row Hnd'); [|simpl in Hl; lia|exact Hn].
      split; [|auto]. intros [[_ E]|Hex]; [|exact Hex].
      exfalso. apply Hnotin. rewrite E. apply in_map.
      eapply nth_error_In; exact Hn.
Qed.

Lemma acknowledged_in rows oks r :
  acknowledged rows oks r = true -> In (ob_id r) (map ob_id rows).
Proof.
  unfold acknowledged. intros H. apply existsb_exists in H.
  destruct H as ([r' ok'] & Hin & Hp). cbn [fst snd] in Hp.
  apply andb_true_iff in Hp. destruct Hp as [_ Hp]. apply Z.eqb_eq in Hp.
  rewrite <- Hp. apply in_map. eapply in_combine_l; exact Hin.
Qed.

Lemma fetch_outbox_ok scan batch_size rows :
  fetch_outbox scan batch_size = Ok rows ->
  0 <= batch_size /\
  rows = firstn (Z.to_nat batch_size) (order_by ob_created_at scan).
Proof.
  unfold fetch_outbox.
  destruct (Z.ltb_spec batch_size 0) as [Hlt|Hge]; [discriminate|].
  intros H; inversion H; auto.
Qed.

Lemma fetched_rows_in scan batch_size rows db :
  Permutation scan (outbox db) ->
  fetch_outbox scan batch_size = Ok rows ->
  forall r, In r rows -> In r (outbox db).
Proof.
  intros Hp H r Hin. apply fetch_outbox_ok in H. destruct H as [_ ->].
  eapply Permutation_in; [exact Hp|].
  eapply Permutation_in; [apply order_by_perm|].
  rewrite <- (firstn_skipn (Z.to_nat batch_size)). apply in_or_app; left.
  exact Hin.
Qed.

Lemma fetched_rows_ids scan batch_size rows db :
  Permutation scan (outbox db) ->
  NoDup (map ob_id (outbox db)) ->
  fetch_outbox scan batch_size = Ok rows ->
  NoDup (map ob_id rows).
Proof.
  intros Hp Hnd H. apply fetch_outbox_ok in H. destruct H as [_ ->].
  rewrite <- firstn_map. apply NoDup_firstn.
  eapply Permutation_NoDup; [|exact Hnd].
  apply Permutation_map. symmetry. rewrite order_by_perm. exact Hp.
Qed.

(** [process_outbox], once the rows are fetched. *)
Lemma process_outbox_unfold scan batch_size db kp rows :
  fetch_outbox scan batch_size = Ok rows ->
  process_outbox scan batch_size db kp =
  (let '(n, db', kp') := process_rows rows 0 db kp in (Ok n, db', kp')).
Proof.
  unfold process_outbox. intros ->. destruct rows; reflexivity.
Qed.

Lemma process_outbox_integrity scan batch_size db kp :
  integrity db ->
  integrity (snd (fst (process_outbox scan batch_size db kp))).
Proof.
  intros Hwf. destruct (fetch_outbox scan batch_size) as [rows|e] eqn:Hf.
  - rewrite (process_outbox_unfold _ _ _ _ _ Hf).
    destruct (process_rows rows 0 db kp) as [[n db'] kp'] eqn:H.
    apply process_rows_spec in H. destruct H as (_ & _ & _ & He & Hs & Ho).
    destruct Hwf as [H1 H2 H3 H4 H5].
    constructor; cbn [fst snd]; rewrite ?He, ?Hs, ?Ho; auto.
    + clear - H4. induction (outbox db) as [|r l IH]; simpl; [constructor|].
      simpl in H4. inversion H4; subst.
      destruct (negb _); simpl; auto. constructor; auto.
      intros Hin. apply in_map_iff in Hin. destruct Hin as (r' & E & Hin).
      apply filter_In in Hin. destruct Hin as [Hin _].
      rewrite <- E in *. auto using in_map.
    + apply Forall_forall. intros r Hin. apply filter_In in Hin.
      rewrite Forall_forall in H5. apply H5, Hin.
  - unfold process_outbox. rewrite Hf. exact Hwf.
Qed.

(** Every state the two services reach satisfies the integrity conditions. *)
Lemma reachable_integrity db : reachable db -> integrity db.
Proof.
  induction 1.
  - apply db_wf_integrity. reflexivity.
  - apply append_events_integrity; assumption.
  - apply process_outbox_integrity; assumption.
Qed.

Lemma NoDup_map_eq {A B} (f : A -> B) (l : list A) x y :
  NoDup (map f l) -> In x l -> In y l -> f x = f y -> x = y.
Proof.
  induction l as [|a l IH]; simpl; intros Hnd Hx Hy E; [contradiction|].
  inversion Hnd as [|? ? Hnotin Hnd']; subst.
  destruct Hx as [->|Hx], Hy as [->|Hy]; auto.
  - exfalso; apply Hnotin. rewrite E. apply in_map, Hy.
  - exfalso; apply Hnotin. rewrite <- E. apply in_map, Hx.
Qed.






(** ** The current version of a stream *)

Lemma max_version_spec rows :
  match max_version rows with
  | None => rows = []
  | Some m => In m (map ev_version rows) /\
              Forall (fun r => ev_version r <= m) rows
  end.
Proof.
  induction rows as [|r rows IH]; simpl; [reflexivity|].
  destruct (max_version rows) as [m|].
  - destruct IH as [Hin Hall]. split.
    + destruct (Z.max_spec (ev_version r) m) as [[_ ->]|[_ ->]]; auto.
    + constructor; [lia|].
      eapply Forall_impl; [|exact Hall]. cbn beta; intros; lia.
  - subst rows. split; [auto|]. repeat constructor. lia.
Qed.

(** [COALESCE(MAX(version), 0)] is never negative when versions are
    positive. *)
Lemma current_version_nonneg db aggregate_id tenant_id :
  Forall (fun r => 0 < ev_version r) (events db) ->
  0 <= current_version db aggregate_id tenant_id.
Proof.
  intros Hpos. unfold current_version.
  pose proof (max_version_spec
                (filter (in_stream aggregate_id tenant_id) (events db))) as H.
  destruct (max_version _) as [m|]; simpl; [|lia].
  destruct H as [Hin _]. apply in_map_iff in Hin.
  destruct Hin as (r & <- & Hin). apply filter_In in Hin.
  rewrite Forall_forall in Hpos. specialize (Hpos r (proj1 Hin)). lia.
Qed.

(** C7, as the code has it: [append_events] has no argument check. With an
    empty [new_events] it returns the expected version when that is the
    current one and raises [ConcurrencyError] otherwise; with a negative
    expected version it raises [ConcurrencyError], the current version being
    at least 0. In each of these cases the database is left as it was. *)
Theorem append_events_empty_or_negative :
  forall db aggregate_id aggregate_type expected_version new_events tenant_id
         now,
    db_wf db = true ->
    let current := current_version db aggregate_id tenant_id in
    append_events aggregate_id aggregate_type expected_version [] tenant_id
      now db
    = ((if current =? expected_version then Ok expected_version
        else Raise (ConcurrencyError aggregate_id expected_version current)),
       db) /\
    (expected_version < 0 ->
     append_events aggregate_id aggregate_type expected_version new_events
       tenant_id now db
     = (Raise (ConcurrencyError aggregate_id expected_version current), db)).
Proof.
  intros db aggregate_id aggregate_type expected_version new_events tenant_id
    now Hwf current.
  apply db_wf_integrity in Hwf. destruct Hwf as [Hpos _ _ _ _].
  pose proof (current_version_nonneg db aggregate_id tenant_id Hpos) as Hge.
  fold current in Hge. split.
  - rewrite append_events_unfold. fold current.
    destruct (current =? expected_version); reflexivity.
  - intros Hneg. rewrite append_events_unfold. fold current.
    destruct (Z.eqb_spec current expected_version); [lia | reflexivity].
Qed.

Lemma append_events_empty_or_negative_witness :
  db_wf Sample.db_two = true /\
  append_events Sample.account_1 "Account" 2 [] Sample.tenant_a 2000
    Sample.db_two = (Ok 2, Sample.db_two) /\
  append_events Sample.account_1 "Account" (-1) [Sample.account_closed 103%N]
    Sample.tenant_a 2000 Sample.db_two
  = (Raise (ConcurrencyError Sample.account_1 (-1) 2), Sample.db_two).
Proof.
  assert (Hwf : db_wf Sample.db_two = true) by (vm_compute; reflexivity).
  split; [exact Hwf|].
  destruct (append_events_empty_or_negative Sample.db_two Sample.account_1
              "Account" 2 [Sample.account_closed 103%N] Sample.tenant_a 2000
              Hwf) as [H1 _].
  destruct (append_events_empty_or_negative Sample.db_two Sample.account_1
              "Account" (-1) [Sample.account_closed 103%N] Sample.tenant_a 2000
              Hwf) as [_ H2].
  split; [exact H1 | apply H2; lia].
Defined.

(** C7, as stated, fails: an append of no event to a fresh aggregate returns
    0 instead of raising, and an append with expected version -1 raises
    [ConcurrencyError], the only exception the method raises by itself. *)
Lemma append_events_accepts_empty :
  append_events Sample.account_1 "Account" 0 [] Sample.tenant_a 1000 Db.empty
  = (Ok 0, Db.empty) /\
  append_events Sample.account_1 "Account" (-1)
    [Sample.account_created 101%N] Sample.tenant_a 1000 Db.empty
  = (Raise (ConcurrencyError Sample.account_1 (-1) 0), Db.empty).
Proof. split; vm_compute; reflexivity. Qed.

(** ** [load_events] *)

Lemma stream_versions_unique aggregate_id tenant_id (l : list event_row) :
  NoDup (map vkey l) ->
  NoDup (map ev_version (filter (in_stream aggregate_id tenant_id) l)).
Proof.
  induction l as [|a l IH]; simpl; intros Hnd; [constructor|].
  inversion Hnd as [|? ? Hnotin Hnd']; subst.
  destruct (in_stream aggregate_id tenant_id a) eqn:Ha; [|apply IH, Hnd'].
  simpl. constructor; [|apply IH, Hnd'].
  intros Hin. apply in_map_iff in Hin. destruct Hin as (r & Hv & Hr).
  apply filter_In in Hr. destruct Hr as [Hr Hs].
  apply Hnotin. apply in_map_iff. exists r. split; [|exact Hr].
  unfold in_stream in *. apply andb_true_iff in Ha, Hs.
  rewrite !N.eqb_eq in Ha, Hs. unfold vkey.
  destruct Ha as [-> ->], Hs as [-> ->]. rewrite Hv. reflexivity.
Qed.

Lemma StronglySorted_map {A B} (f : A -> B) (R : B -> B -> Prop) l :
  StronglySorted (fun a a' => R (f a) (f a')) l ->
  StronglySorted R (map f l).
Proof.
  induction 1 as [|x l Hl IH Hx]; simpl; constructor; auto.
  apply Forall_map. exact Hx.
Qed.

(** The rows the query of [load_events] returns. *)
Lemma fetch_events_spec db scan aggregate_id tenant_id :
  integrity db ->
  Permutation scan (events db) ->
  let rows := fetch_events scan aggregate_id tenant_id in
  Permutation rows (filter (in_stream aggregate_id tenant_id) (events db)) /\
  StronglySorted version_lt rows.
Proof.
  intros Hwf Hperm rows. subst rows. unfold fetch_events.
  assert (Hp : Permutation
                 (order_by ev_version
                    (filter (in_stream aggregate_id tenant_id) scan))
                 (filter (in_stream aggregate_id tenant_id) (events db))).
  { rewrite order_by_perm. apply Permutation_filter, Hperm. }
  split; [exact Hp|].
  apply (sorted_strict ev_version); [apply order_by_sorted|].
  eapply Permutation_NoDup.
  - apply Permutation_map. symmetry. exact Hp.
  - apply stream_versions_unique. apply (version_keys_unique _ Hwf).
Qed.

(** C5: [load_events] returns, when rows match the aggregate id under the
    tenant, one record per matching row, in strictly ascending order of
    version, whatever the [created_at] of the rows and the order in which the
    table was read; a record holds the event id, the event type, the decoded
    payload, the version and [created_at] of its row. When no row matches it
    raises [AggregateNotFoundError] with the aggregate id and the aggregate
    type. *)
Theorem load_events_sorted_by_version :
  forall db scan aggregate_id aggregate_type tenant_id,
    db_wf db = true ->
    Permutation scan (events db) ->
    let matching := filter (in_stream aggregate_id tenant_id) (events db) in
    (matching = [] ->
     load_events scan aggregate_id aggregate_type tenant_id
     = Raise (AggregateNotFoundError aggregate_id aggregate_type)) /\
    (matching <> [] ->
     exists rows records,
       load_events scan aggregate_id aggregate_type tenant_id = Ok records /\
       Permutation rows matching /\
       StronglySorted version_lt rows /\
       StronglySorted (fun d d' => d_version d < d_version d') records /\
       Forall2 (fun row d =>
                  d_event_id d = ev_event_id row /\
                  d_event_type d = ev_event_type row /\
                  d_event_data d = json_loads (ev_event_data row) /\
                  d_version d = ev_version row /\
                  d_created_at d = ev_created_at row)
               rows records).
Proof.
  intros db scan aggregate_id aggregate_type tenant_id Hwf Hperm matching.
  apply db_wf_integrity in Hwf.
  destruct (fetch_events_spec db scan aggregate_id tenant_id Hwf Hperm)
    as [Hp Hs].
  fold matching in Hp. unfold load_events.
  destruct (fetch_events scan aggregate_id tenant_id) as [|row rows] eqn:Hf.
  - split; [reflexivity|]. intros Hne. exfalso. apply Hne.
    apply Permutation_nil. exact Hp.
  - split.
    + intros E. rewrite E in Hp. apply Permutation_sym, Permutation_nil in Hp.
      discriminate.
    + intros _. exists (row :: rows), (map event_dict_of_row (row :: rows)).
      split; [reflexivity|]. split; [exact Hp|]. split; [exact Hs|].
      split; [apply StronglySorted_map; exact Hs|].
      clear. induction (row :: rows) as [|r l IH]; simpl; constructor; auto.
Qed.

Lemma load_events_sorted_by_version_witness :
  db_wf Sample.db_two = true /\
  Permutation (rev (events Sample.db_two)) (events Sample.db_two) /\
  exists records,
    load_events (rev (events Sample.db_two)) Sample.account_1 "Account"
      Sample.tenant_a = Ok records /\
    StronglySorted (fun d d' => d_version d < d_version d') records.
Proof.
  assert (Hwf : db_wf Sample.db_two = true) by (vm_compute; reflexivity).
  assert (Hp : Permutation (rev (events Sample.db_two)) (events Sample.db_two))
    by (symmetry; apply Permutation_rev).
  split; [exact Hwf|]. split; [exact Hp|].
  destruct (load_events_sorted_by_version Sample.db_two
              (rev (events Sample.db_two)) Sample.account_1 "Account"
              Sample.tenant_a Hwf Hp) as [_ H].
  destruct H as (rows & records & Hl & _ & _ & Hs & _).
  - vm_compute; discriminate.
  - exists records. split; [exact Hl | exact Hs].
Defined.

(** ** Streams are contiguous *)

Lemma version_range_app start n m :
  version_range start (n + m) =
  version_range start n ++ version_range (start + Z.of_nat n) m.
Proof.
  revert start; induction n as [|n IH]; intros start.
  - simpl. f_equal. lia.
  - cbn [Nat.add version_range app]. rewrite IH. do 3 f_equal. lia.
Qed.

Lemma max_version_range rows :
  forall start,
    map ev_version rows = version_range start (List.length rows) ->
    coalesce (max_version rows) start = start + Z.of_nat (List.length rows).
Proof.
  induction rows as [|r rows IH]; intros start H; simpl in *; [lia|].
  injection H as Hr Hrest. specialize (IH (start + 1) Hrest).
  rewrite Hr. destruct (max_version rows) as [m|]; simpl in *; lia.
Qed.

Lemma new_event_rows_versions aggregate_id aggregate_type tenant_id new_events :
  forall datas version,
    List.length datas = List.length new_events ->
    map ev_version (new_event_rows aggregate_id aggregate_type tenant_id
                      new_events datas version)
    = version_range version (List.length new_events).
Proof.
  induction new_events as [|e rest IH]; intros [|d datas] version Hl;
    simpl in *; try discriminate; auto.
  f_equal. apply IH. lia.
Qed.

Lemma new_event_rows_stream aggregate_id aggregate_type tenant_id new_events
    aggregate_id' tenant_id' :
  forall datas version,
    filter (in_stream aggregate_id' tenant_id')
           (new_event_rows aggregate_id aggregate_type tenant_id new_events
              datas version)
    = if N.eqb aggregate_id aggregate_id' && N.eqb tenant_id tenant_id'
      then new_event_rows aggregate_id aggregate_type tenant_id new_events
             datas version
      else [].
Proof.
  induction new_events as [|e rest IH]; intros [|d datas] version;
    cbn [new_event_rows filter];
    try (destruct (N.eqb aggregate_id aggregate_id' &&
                   N.eqb tenant_id tenant_id'); reflexivity).
  rewrite IH. unfold in_stream at 1. cbn [ev_aggregate_id ev_tenant_id].
  destruct (N.eqb aggregate_id aggregate_id' && N.eqb tenant_id tenant_id');
    reflexivity.
Qed.

Lemma append_events_contiguous aggregate_id aggregate_type expected_version
    new_events tenant_id now db :
  contiguous db ->
  contiguous (snd (append_events aggregate_id aggregate_type expected_version
                     new_events tenant_id now db)).
Proof.
  intros Hc.
  destruct (append_events aggregate_id aggregate_type expected_version
              new_events tenant_id now db) as [[v|e] db'] eqn:H; cbn [snd].
  - apply append_events_ok in H. destruct H as [Hcur H].
    apply append_loop_ok in H. destruct H as (datas & Hm & He & _ & _ & _).
    pose proof (mapM_length _ _ _ Hm) as Hl.
    intros a t. cbv zeta. rewrite He, filter_app, new_event_rows_stream.
    specialize (Hc a t). cbv zeta in Hc.
    destruct (N.eqb aggregate_id a && N.eqb tenant_id t) eqn:E.
    + apply andb_true_iff in E. rewrite !N.eqb_eq in E. destruct E; subst a t.
      rewrite map_app, length_app, version_range_app, <- Hc.
      f_equal. rewrite new_event_rows_versions by exact Hl.
      rewrite new_event_rows_length by exact Hl.
      f_equal. rewrite <- Hcur. unfold current_version.
      rewrite (max_version_range _ 0 Hc). lia.
    + rewrite app_nil_r. exact Hc.
  - apply append_events_raise in H. destruct H as [He _].
    intros a t. cbv zeta. rewrite He. apply Hc.
Qed.

Lemma process_outbox_events scan batch_size db kp :
  events (snd (fst (process_outbox scan batch_size db kp))) = events db.
Proof.
  destruct (fetch_outbox scan batch_size) as [rows|e] eqn:Hf.
  - rewrite (process_outbox_unfold _ _ _ _ _ Hf).
    destruct (process_rows rows 0 db kp) as [[n db'] kp'] eqn:H.
    apply process_rows_spec in H. cbn [fst snd]. tauto.
  - unfold process_outbox. rewrite Hf. reflexivity.
Qed.

(** Every state the two services reach has contiguous streams. *)
Lemma reachable_contiguous db : reachable db -> contiguous db.
Proof.
  induction 1.
  - intros a t. reflexivity.
  - apply append_events_contiguous; assumption.
  - intros a t. cbv zeta. rewrite process_outbox_events. apply IHreachable.
Qed.

Lemma version_range_sorted n :
  forall start,
    StronglySorted Z.lt (version_range start n) /\
    Forall (fun v => start < v) (version_range start n).
Proof.
  induction n as [|n IH]; intros start; simpl.
  - split; constructor.
  - destruct (IH (start + 1)) as [Hs Hf]. split.
    + constructor; [exact Hs|]. exact Hf.
    + constructor; [lia|].
      eapply Forall_impl; [|exact Hf]. cbn beta; intros; lia.
Qed.

Lemma StronglySorted_unmap {A B} (f : A -> B) (R : B -> B -> Prop) l :
  StronglySorted R (map f l) ->
  StronglySorted (fun a a' => R (f a) (f a')) l.
Proof.
  induction l as [|x l IH]; simpl; intros H; [constructor|].
  inversion H as [|? ? Hl Hx]; subst. constructor; [apply IH, Hl|].
  rewrite Forall_map in Hx. exact Hx.
Qed.

(** Two strictly sorted lists with the same elements are equal. *)
Lemma sorted_perm_eq {A} (key : A -> Z) (l : list A) :
  forall l',
    StronglySorted (fun a b => key a < key b) l ->
    StronglySorted (fun a b => key a < key b) l' ->
    Permutation l l' -> l = l'.
Proof.
  induction l as [|x xs IH]; intros l' Hs Hs' Hp.
  - apply Permutation_nil in Hp. auto.
  - destruct l' as [|y ys];
      [apply Permutation_sym, Permutation_nil in Hp; discriminate|].
    inversion Hs as [|? ? Hxs Hx]; subst.
    inversion Hs' as [|? ? Hys Hy]; subst.
    rewrite Forall_forall in Hx, Hy.
    assert (E : x = y).
    { assert (Hxin : In x (y :: ys))
        by (eapply Permutation_in; [exact Hp | left; reflexivity]).
      assert (Hyin : In y (x :: xs))
        by (eapply Permutation_in;
            [symmetry; exact Hp | left; reflexivity]).
      destruct Hxin as [E|Hxin]; [auto|].
      destruct Hyin as [E|Hyin]; [auto|].
      specialize (Hx y Hyin). specialize (Hy x Hxin). lia. }
    subst y. f_equal. apply IH; auto.
    eapply Permutation_cons_inv; exact Hp.
Qed.

(** In a reachable state the query of [load_events] returns the stream as it
    was written, however the table is read. *)
Lemma fetch_events_reachable db scan aggregate_id tenant_id :
  reachable db ->
  Permutation scan (events db) ->
  fetch_events scan aggregate_id tenant_id
  = filter (in_stream aggregate_id tenant_id) (events db).
Proof.
  intros Hr Hperm.
  destruct (fetch_events_spec db scan aggregate_id tenant_id
              (reachable_integrity db Hr) Hperm) as [Hp Hs].
  apply (sorted_perm_eq ev_version); [exact Hs | | exact Hp].
  apply (StronglySorted_unmap ev_version Z.lt).
  rewrite (reachable_contiguous db Hr aggregate_id tenant_id).
  apply version_range_sorted.
Qed.

(** An append under one tenant does not touch the streams of another. *)
Lemma append_events_other_tenant aggregate_id aggregate_type expected_version
    new_events other_tenant now db aggregate_id' tenant_id :
  other_tenant <> tenant_id ->
  filter (in_stream aggregate_id' tenant_id)
         (events (snd (append_events aggregate_id aggregate_type
                         expected_version new_events other_tenant now db)))
  = filter (in_stream aggregate_id' tenant_id) (events db).
Proof.
  intros Hne.
  destruct (append_events aggregate_id aggregate_type expected_version
              new_events other_tenant now db) as [[v|e] db'] eqn:H; cbn [snd].
  - apply append_events_ok in H. destruct H as [_ H].
    apply append_loop_ok in H. destruct H as (datas & _ & He & _).
    rewrite He, filter_app, new_event_rows_stream.
    destruct (N.eqb_spec other_tenant tenant_id) as [E|_]; [contradiction|].
    rewrite andb_false_r, app_nil_r. reflexivity.
  - apply append_events_raise in H. destruct H as [He _].
    rewrite He. reflexivity.
Qed.

(** C6: in a state the services have reached, every record that
    [load_events] returns for a tenant comes from a row written under that
    tenant for that aggregate, and no row of the table with the event id of
    the record belongs to another tenant; the versions of the records are 1,
    2, ..., N whatever the other tenants hold under the same aggregate id;
    and an append under another tenant, to the same aggregate id, changes
    nothing in what [load_events] returns. *)
Theorem load_events_tenant_isolation :
  forall db scan aggregate_id aggregate_type tenant_id records,
    reachable db ->
    Permutation scan (events db) ->
    load_events scan aggregate_id aggregate_type tenant_id = Ok records ->
    Forall (fun d =>
              exists row,
                In row (events db) /\
                ev_tenant_id row = tenant_id /\
                ev_aggregate_id row = aggregate_id /\
                d = event_dict_of_row row /\
                forall row',
                  In row' (events db) ->
                  ev_event_id row' = d_event_id d ->
                  ev_tenant_id row' = tenant_id)
           records /\
    map d_version records = version_range 0 (List.length records) /\
    forall other_tenant aggregate_type' expected_version new_events now scan',
      other_tenant <> tenant_id ->
      Permutation scan'
        (events (snd (append_events aggregate_id aggregate_type'
                        expected_version new_events other_tenant now db))) ->
      load_events scan' aggregate_id aggregate_type tenant_id = Ok records.
Proof.
  intros db scan aggregate_id aggregate_type tenant_id records Hr Hperm Hload.
  pose proof (reachable_integrity db Hr) as Hwf.
  unfold load_events in Hload.
  rewrite (fetch_events_reachable db scan aggregate_id tenant_id Hr Hperm)
    in Hload.
  set (stream := filter (in_stream aggregate_id tenant_id) (events db)) in *.
  assert (Hrec : records = map event_dict_of_row stream /\ stream <> []).
  { destruct stream; [discriminate|]. inversion Hload. split; congruence. }
  destruct Hrec as [-> Hne].
  split; [|split].
  - apply Forall_map, Forall_forall. intros row Hin.
    apply filter_In in Hin. destruct Hin as [Hin Hs].
    unfold in_stream in Hs. apply andb_true_iff in Hs.
    rewrite !N.eqb_eq in Hs. destruct Hs as [Ha Ht].
    exists row. repeat split; auto.
    intros row' Hin' Hid. cbn [event_dict_of_row d_event_id] in Hid.
    rewrite (NoDup_map_eq ev_event_id (events db) row' row
               (event_ids_unique _ Hwf) Hin' Hin Hid).
    exact Ht.
  - rewrite map_map, length_map. cbn [event_dict_of_row d_version].
    apply (reachable_contiguous db Hr aggregate_id tenant_id).
  - intros other_tenant aggregate_type' expected_version new_events now scan'
      Hother Hperm'.
    unfold load_events.
    rewrite (fetch_events_reachable _ scan' aggregate_id tenant_id
               (reach_append db aggregate_id aggregate_type' expected_version
                  new_events other_tenant now Hr) Hperm').
    rewrite append_events_other_tenant by exact Hother.
    fold stream. destruct stream; [contradiction|reflexivity].
Qed.

Lemma load_events_tenant_isolation_witness :
  reachable Sample.db_collision /\
  Permutation (rev (events Sample.db_collision)) (events Sample.db_collision) /\
  load_events (rev (events Sample.db_collision)) Sample.account_1 "Account"
    Sample.tenant_b
  = Ok (map event_dict_of_row (skipn 2 (events Sample.db_collision))) /\
  map d_version (map event_dict_of_row (skipn 2 (events Sample.db_collision)))
  = version_range 0 1.
Proof.
  assert (Hr : reachable Sample.db_collision)
    by (unfold Sample.db_collision, Sample.db_two;
        apply reach_append, reach_append, reach_empty).
  assert (Hp : Permutation (rev (events Sample.db_collision))
                 (events Sample.db_collision))
    by (symmetry; apply Permutation_rev).
  assert (Hl : load_events (rev (events Sample.db_collision)) Sample.account_1
                 "Account" Sample.tenant_b
               = Ok (map event_dict_of_row
                       (skipn 2 (events Sample.db_collision))))
    by (vm_compute; reflexivity).
  split; [exact Hr|]. split; [exact Hp|]. split; [exact Hl|].
  exact (proj1 (proj2 (load_events_tenant_isolation Sample.db_collision _
                         Sample.account_1 "Account" Sample.tenant_b _
                         Hr Hp Hl))).
Defined.

(** ** The payload encoder *)


Lemma json_dumps_list l : json_dumps (PList l) = rmap JArr (dumps_items l).
Proof.
  cbn [json_dumps]. f_equal. unfold dumps_items.
  induction l as [|v l IH]; [reflexivity|].
  cbn [mapM]. rewrite <- IH. reflexivity.
Qed.

Lemma json_dumps_tuple l : json_dumps (PTuple l) = rmap JArr (dumps_items l).
Proof. rewrite <- json_dumps_list. reflexivity. Qed.

Lemma json_dumps_dict d : json_dumps (PDict d) = rmap JObj (dumps_members d).
Proof.
  reflexivity.
Qed.

Lemma json_dumps_object cls attrs :
  json_dumps (PObject cls attrs) =
  match assoc "value" attrs with
  | Some v => json_dumps v
  | None => Raise (TypeError cls)
  end.
Proof.
  cbn [json_dumps].
  induction attrs as [|[k v] attrs IH]; [reflexivity|].
  cbn [assoc]. destruct (String.eqb "value" k); [reflexivity | exact IH].
Qed.

(** [json.dumps] hands what it cannot serialise to [default] and encodes
    what [default] returns. *)
Lemma json_dumps_default obj :
  json_native obj = false ->
  json_dumps obj = rbind (default obj) json_dumps.
Proof.
  destruct obj; try discriminate; intros _; try reflexivity.
  - destruct m as [eid cid ts [c|] [u|] sv]; reflexivity.
  - rewrite json_dumps_object. cbn [default getattr].
    destruct (assoc "value" attrs); reflexivity.
Qed.



(** ** Decoding an encoded payload *)

Lemma wire_form_object cls attrs :
  wire_form (PObject cls attrs) =
  match assoc "value" attrs with
  | Some x => wire_form x
  | None => PNone
  end.
Proof.
  cbn [wire_form].
  induction attrs as [|[k v] attrs IH]; [reflexivity|].
  cbn [assoc]. destruct (String.eqb "value" k); [reflexivity | exact IH].
Qed.

Lemma assoc_in {A} k (l : list (string * A)) a :
  assoc k l = Some a -> exists k', In (k', a) l.
Proof.
  induction l as [|[k' a'] l IH]; simpl; [discriminate|].
  destruct (String.eqb k k').
  - intros H; inversion H; subst. exists k'; auto.
  - intros H. destruct (IH H) as [k'' Hin]. exists k''; auto.
Qed.

Lemma rmap_ok {A B} (f : A -> B) (r : result A) b :
  rmap f r = Ok b -> exists a, r = Ok a /\ b = f a.
Proof.
  destruct r as [a|e]; simpl; intros H; inversion H. exists a; auto.
Qed.

(** [json.loads] of what [json.dumps] wrote is the wire form of the value. *)
Lemma loads_dumps_wire_form v :
  forall j, json_dumps v = Ok j -> json_loads j = wire_form v.
Proof.
  induction v using pyval_induction; intros j Hj;
    try (inversion Hj; subst; reflexivity).
  - rewrite json_dumps_list in Hj. apply rmap_ok in Hj.
    destruct Hj as (js & Hjs & ->). cbn [json_loads wire_form]. f_equal.
    unfold dumps_items in Hjs. revert js Hjs.
    induction H as [|x l Hx _ IH]; intros js Hjs; simpl in Hjs.
    + inversion Hjs; reflexivity.
    + destruct (json_dumps x) as [jx|]; [|discriminate]. simpl in Hjs.
      destruct (mapM json_dumps l) as [jl|]; [|discriminate].
      inversion Hjs; subst. simpl. f_equal; auto.
  - rewrite json_dumps_tuple in Hj. apply rmap_ok in Hj.
    destruct Hj as (js & Hjs & ->). cbn [json_loads wire_form]. f_equal.
    unfold dumps_items in Hjs. revert js Hjs.
    induction H as [|x l Hx _ IH]; intros js Hjs; simpl in Hjs.
    + inversion Hjs; reflexivity.
    + destruct (json_dumps x) as [jx|]; [|discriminate]. simpl in Hjs.
      destruct (mapM json_dumps l) as [jl|]; [|discriminate].
      inversion Hjs; subst. simpl. f_equal; auto.
  - rewrite json_dumps_dict in Hj. apply rmap_ok in Hj.
    destruct Hj as (js & Hjs & ->). cbn [json_loads wire_form]. f_equal.
    revert js Hjs.
    induction H as [|[k x] l Hx _ IH]; intros js Hjs; simpl in Hjs.
    + inversion Hjs; reflexivity.
    + destruct (json_dumps x) as [jx|] eqn:Ex; [|discriminate]. simpl in Hjs.
      destruct (dumps_members l) as [jl|]; [|discriminate].
      inversion Hjs; subst. simpl. f_equal; [|auto].
      f_equal. apply Hx. exact Ex.
  - destruct m as [eid cid ts [c|] [u|] sv]; inversion Hj; reflexivity.
  - rewrite json_dumps_object in Hj. rewrite wire_form_object.
    destruct (assoc "value" attrs) as [x|] eqn:Hx; [|discriminate].
    apply assoc_in in Hx. destruct Hx as [k Hin].
    rewrite Forall_forall in H. apply (H (k, x) Hin). exact Hj.
Qed.

(** [asdict] changes nothing in the wire form. *)
Lemma wire_form_asdict_inner v : wire_form (asdict_inner v) = wire_form v.
Proof.
  induction v using pyval_induction; try reflexivity.
  - cbn [asdict_inner wire_form]. f_equal. rewrite map_map.
    apply map_ext_in. rewrite Forall_forall in H. exact H.
  - cbn [asdict_inner wire_form]. f_equal. rewrite map_map.
    apply map_ext_in. rewrite Forall_forall in H. exact H.
  - cbn [asdict_inner wire_form]. f_equal. rewrite map_map.
    apply map_ext_in. rewrite Forall_forall in H.
    intros kv Hin. cbn [fst snd]. f_equal. apply H, Hin.
  - destruct m as [eid cid ts [c|] [u|] sv]; reflexivity.
Qed.

Lemma wire_form_asdict e :
  wire_form (asdict e)
  = PDict (map (fun kv => (fst kv, wire_form (snd kv))) (event_attrs e)).
Proof.
  unfold asdict, event_attrs.
  change (wire_form (PDict ?d))
    with (PDict (map (fun kv => (fst kv, wire_form (snd kv))) d)).
  cbn [map fst snd]. do 3 f_equal.
  - f_equal. exact (wire_form_asdict_inner (PMetadata (metadata e))).
  - rewrite map_map. apply map_ext. intros kv. cbn [fst snd].
    f_equal. apply wire_form_asdict_inner.
Qed.




(** ** Scenarios *)

(** A fresh append returns 1, and the load that follows returns one record,
    at version 1, whose balance is the string ["10000.00"]. *)
Example scenario_fresh_append :
  let out := append_events Sample.account_1 "Account" 0
               [Sample.account_created 101%N] Sample.tenant_a 1000 Db.empty in
  fst out = Ok 1 /\
  exists d,
    load_events (events (snd out)) Sample.account_1 "Account" Sample.tenant_a
    = Ok [d] /\
    d_version d = 1 /\
    d_event_type d = "AccountCreated"%string /\
    dict_get (d_event_data d) "initial_balance" = Some (PStr "10000.00") /\
    dict_get (d_event_data d) "currency" = Some (PStr "NOK").
Proof.
  cbv zeta. split; [vm_compute; reflexivity|].
  eexists. split; [vm_compute; reflexivity|].
  repeat split.
Qed.

(** A second append at the version the first one consumed conflicts. *)
Example scenario_concurrency_conflict :
  let first := append_events Sample.account_1 "Account" 2
                 [Sample.account_closed 103%N] Sample.tenant_a 2000
                 Sample.db_two in
  fst first = Ok 3 /\
  append_events Sample.account_1 "Account" 2 [Sample.account_closed 104%N]
    Sample.tenant_a 3000 (snd first)
  = (Raise (ConcurrencyError Sample.account_1 2 3), snd first).
Proof. cbv zeta. split; vm_compute; reflexivity. Qed.

(** With the broker down nothing is published and the rows stay; once it
    answers, the rows leave in insertion order. *)
Example scenario_bus_outage :
  let down := process_outbox (outbox Sample.db_two) 100 Sample.db_two
                Sample.broker_down in
  fst (fst down) = Ok 0 /\
  outbox (snd (fst down)) = outbox Sample.db_two /\
  let up := process_outbox (outbox Sample.db_two) 100 Sample.db_two
              (mkKafkaProducer (fun _ _ => true) []) in
  fst (fst up) = Ok 2 /\
  outbox (snd (fst up)) = [] /\
  map (fun c => key (fst c)) (calls (snd up))
  = map (fun r => uuid_str (ob_event_id r)) (outbox Sample.db_two).
Proof. cbv zeta. repeat split; vm_compute; reflexivity. Qed.

(** The same aggregate id under two tenants: each load sees its own history,
    each starting at version 1. *)
Example scenario_tenant_collision :
  rmap (map d_version)
       (load_events (events Sample.db_collision) Sample.account_1 "Account"
          Sample.tenant_a) = Ok [1; 2] /\
  rmap (map d_version)
       (load_events (events Sample.db_collision) Sample.account_1 "Account"
          Sample.tenant_b) = Ok [1] /\
  rmap (map d_event_id)
       (load_events (events Sample.db_collision) Sample.account_1 "Account"
          Sample.tenant_b) = Ok [201%N].
Proof. repeat split; vm_compute; reflexivity. Qed.

(** An event id that is already stored is refused and nothing is written. *)
Example scenario_event_id_collision :
  append_events Sample.account_1 "Account" 2 [Sample.account_closed 101%N]
    Sample.tenant_a 2000 Sample.db_two
  = (Raise (UniqueViolationError "events_pkey"), Sample.db_two).
Proof. vm_compute; reflexivity. Qed.

(** A field the encoder cannot serialise aborts the append, and the rows of
    the events before it are rolled back. *)
Example scenario_unserialisable_field :
  let out := append_events Sample.account_1 "Account" 0
               [Sample.account_created 101%N;
                mkDomainEvent "TransactionTagged" Sample.account_1
                  (Sample.meta 102%N) [("tags", PObject "Tags" [])]]
               Sample.tenant_a 1000 Db.empty in
  fst out = Raise (TypeError "Tags") /\
  events (snd out) = [] /\
  outbox (snd out) = [] /\
  outbox_id_seq (snd out) = 2.
Proof. cbv zeta. repeat split; vm_compute; reflexivity. Qed.

(** * Further properties *)

(** ** Versions across appends *)

Lemma max_version_app l l' :
  max_version (l ++ l') =
  match max_version l, max_version l' with
  | None, m' => m'
  | Some m, None => Some m
  | Some m, Some m' => Some (Z.max m m')
  end.
Proof.
  induction l as [|r l IH]; simpl.
  - destruct (max_version l'); reflexivity.
  - rewrite IH.
    destruct (max_version l) as [m|], (max_version l') as [m'|];
      try reflexivity.
    f_equal. lia.
Qed.

Lemma filter_new_event_rows aggregate_id aggregate_type tenant_id new_events
    datas version :
  filter (in_stream aggregate_id tenant_id)
         (new_event_rows aggregate_id aggregate_type tenant_id new_events datas
            version)
  = new_event_rows aggregate_id aggregate_type tenant_id new_events datas
      version.
Proof.
  rewrite new_event_rows_stream, !N.eqb_refl. reflexivity.
Qed.

(** After an append that returns, the current version of the stream is the
    value returned. *)
Lemma current_version_after_append aggregate_id aggregate_type
    expected_version new_events tenant_id now db v db' :
  append_events aggregate_id aggregate_type expected_version new_events
    tenant_id now db = (Ok v, db') ->
  current_version db' aggregate_id tenant_id = v.
Proof.
  intros H. apply append_events_ok in H. destruct H as [Hcur H].
  apply append_loop_ok in H. destruct H as (datas & Hm & He & _ & _ & Hv).
  pose proof (mapM_length _ _ _ Hm) as Hl.
  unfold current_version in *. rewrite He, filter_app, filter_new_event_rows.
  rewrite max_version_app.
  pose proof (max_version_range
                (new_event_rows aggregate_id aggregate_type tenant_id
                   new_events datas expected_version) expected_version) as Hnew.
  rewrite new_event_rows_length in Hnew by exact Hl.
  specialize (Hnew (new_event_rows_versions _ _ _ _ _ _ Hl)).
  destruct (max_version (filter (in_stream aggregate_id tenant_id) (events db)))
    as [m|];
    destruct (max_version (new_event_rows aggregate_id aggregate_type tenant_id
                             new_events datas expected_version)) as [m'|];
    simpl in *; lia.
Qed.

(** X1: in every state the two services reach, the versions of a stream, in
    the order in which its rows were written, are 1, 2, ..., N, and the
    current version that [append_events] reads is N, the number of rows of
    the stream. *)
Theorem reachable_streams_contiguous :
  forall db aggregate_id tenant_id,
    reachable db ->
    let stream := filter (in_stream aggregate_id tenant_id) (events db) in
    map ev_version stream = version_range 0 (List.length stream) /\
    current_version db aggregate_id tenant_id = Z.of_nat (List.length stream).
Proof.
  intros db aggregate_id tenant_id Hr stream.
  pose proof (reachable_contiguous db Hr aggregate_id tenant_id) as Hc.
  cbv zeta in Hc. fold stream in Hc. split; [exact Hc|].
  unfold current_version. fold stream.
  rewrite (max_version_range stream 0 Hc). lia.
Qed.

Lemma reachable_streams_contiguous_witness :
  reachable Sample.db_collision /\
  map ev_version
      (filter (in_stream Sample.account_1 Sample.tenant_a)
              (events Sample.db_collision)) = [1; 2] /\
  current_version Sample.db_collision Sample.account_1 Sample.tenant_a = 2.
Proof.
  assert (Hr : reachable Sample.db_collision)
    by (unfold Sample.db_collision, Sample.db_two;
        apply reach_append, reach_append, reach_empty).
  split; [exact Hr|].
  exact (reachable_streams_contiguous Sample.db_collision Sample.account_1
           Sample.tenant_a Hr).
Defined.

(** ** What an append can raise *)

Lemma mapM_raise {A B} (f : A -> result B) (l : list A) e :
  mapM f l = Raise e -> exists a, In a l /\ f a = Raise e.
Proof.
  induction l as [|a l IH]; simpl; [discriminate|].
  destruct (f a) as [b|e'] eqn:Ha; simpl.
  - destruct (mapM f l) as [bs|e'']; simpl; [discriminate|].
    intros H; inversion H; subst.
    destruct (IH eq_refl) as (a' & Hin & Ha'). exists a'; auto.
  - intros H; inversion H; subst. exists a; auto.
Qed.

(** The encoder raises nothing but [TypeError]. *)
Lemma json_dumps_raise v :
  forall e, json_dumps v = Raise e -> exists cls, e = TypeError cls.
Proof.
  induction v using pyval_induction; intros e He; try discriminate.
  - rewrite json_dumps_list in He. unfold rmap, dumps_items in He.
    destruct (mapM json_dumps l) as [js|e'] eqn:Hm; [discriminate|].
    simpl in He. inversion He; subst e'.
    apply mapM_raise in Hm. destruct Hm as (x & Hin & Hx).
    rewrite Forall_forall in H. exact (H x Hin e Hx).
  - rewrite json_dumps_tuple in He. unfold rmap, dumps_items in He.
    destruct (mapM json_dumps l) as [js|e'] eqn:Hm; [discriminate|].
    simpl in He. inversion He; subst e'.
    apply mapM_raise in Hm. destruct Hm as (x & Hin & Hx).
    rewrite Forall_forall in H. exact (H x Hin e Hx).
  - rewrite json_dumps_dict in He. unfold rmap in He.
    destruct (dumps_members d) as [js|e'] eqn:Hm; [discriminate|].
    simpl in He. inversion He; subst e'. clear He.
    induction H as [|[k x] l Hx _ IH]; simpl in Hm; [discriminate|].
    destruct (json_dumps x) as [jx|ex] eqn:Ex; simpl in Hm.
    + destruct (dumps_members l) as [jl|el]; simpl in Hm; [discriminate|].
      inversion Hm; subst. apply IH. reflexivity.
    + inversion Hm; subst. apply (Hx e). exact Ex.
  - rewrite json_dumps_object in He.
    destruct (assoc "value" attrs) as [x|] eqn:Hx.
    + apply assoc_in in Hx. destruct Hx as [k Hin].
      rewrite Forall_forall in H. exact (H (k, x) Hin e He).
    + inversion He. eexists; reflexivity.
Qed.

(** One turn of the loop of [append_events]. *)
Lemma append_loop_cons aggregate_id aggregate_type tenant_id now event rest
    version db :
  append_loop aggregate_id aggregate_type tenant_id now (event :: rest) version
    db =
  match json_dumps (asdict event) with
  | Raise e => (Raise e, db)
  | Ok event_data =>
      match insert_event
              (mkEventRow (event_id (metadata event)) aggregate_id
                 aggregate_type (class_name event) event_data (version + 1)
                 tenant_id (timestamp (metadata event))) db with
      | (Raise e, db1) => (Raise e, db1)
      | (Ok _, db1) =>
          append_loop aggregate_id aggregate_type tenant_id now rest
            (version + 1)
            (snd (insert_outbox now (event_id (metadata event)) aggregate_type
                    (class_name event) event_data tenant_id db1))
      end
  end.
Proof.
  cbn [append_loop]. unfold bind at 1, lift.
  destruct (json_dumps (asdict event)) as [data|e]; [|reflexivity].
  unfold bind at 1.
  destruct (insert_event _ db) as [[u|e] db1]; reflexivity.
Qed.

(** What [INSERT INTO events] raises, and when. *)
Lemma insert_event_raise_kind r db e db' :
  insert_event r db = (Raise e, db') ->
  (e = CheckViolationError "events_version_check" /\ ev_version r <= 0) \/
  (e = UniqueViolationError "events_pkey" /\
   In (ev_event_id r) (map ev_event_id (events db))) \/
  (e = UniqueViolationError "events_tenant_id_aggregate_id_version_key" /\
   In (vkey r) (map vkey (events db))).
Proof.
  unfold insert_event.
  destruct (Z.ltb_spec 0 (ev_version r)) as [Hpos|Hneg]; cbn [negb].
  2:{ intros H; injection H as He Hdb; subst e db'.
      left. split; [reflexivity | lia]. }
  destruct (existsb _ (events db)) eqn:Hid.
  { intros H; injection H as He Hdb; subst e db'.
    right; left. split; [reflexivity|].
    apply existsb_exists in Hid. destruct Hid as (r' & Hin & E).
    apply N.eqb_eq in E. rewrite <- E. apply in_map, Hin. }
  destruct (existsb (same_version_key r) (events db)) eqn:Hkey;
    [|intros H; discriminate H].
  intros H; injection H as He Hdb; subst e db'.
  right; right. split; [reflexivity|].
  apply existsb_exists in Hkey. destruct Hkey as (r' & Hin & E).
  apply same_version_key_iff in E. rewrite E. apply in_map, Hin.
Qed.

(** The loop of [append_events] raises [TypeError], from the encoder, or
    what [INSERT INTO events] raises, and nothing else. *)
Lemma append_loop_raise aggregate_id aggregate_type tenant_id now new_events :
  forall version db e db',
    append_loop aggregate_id aggregate_type tenant_id now new_events version db
    = (Raise e, db') ->
    (exists cls, e = TypeError cls) \/
    (exists c, e = CheckViolationError c) \/
    (exists c, e = UniqueViolationError c).
Proof.
  induction new_events as [|event rest IH]; intros version db e db' H.
  - discriminate.
  - rewrite append_loop_cons in H.
    destruct (json_dumps (asdict event)) as [data|e0] eqn:Henc.
    + destruct (insert_event _ db) as [[u|e1] db1] eqn:Hins.
      * eapply IH; exact H.
      * inversion H; subst e1 db1.
        apply insert_event_raise_kind in Hins.
        destruct Hins as [[-> _]|[[-> _]|[-> _]]]; eauto.
    + inversion H; subst e0. left. eapply json_dumps_raise; exact Henc.
Qed.

(** X2: the value an [append_events] returns is the current version of the
    stream in the state it leaves: an append that passes it as expected
    version does not raise [ConcurrencyError], whatever else it does. *)
Theorem append_events_returns_head :
  forall db aggregate_id aggregate_type expected_version new_events tenant_id
         now v db',
    append_events aggregate_id aggregate_type expected_version new_events
      tenant_id now db = (Ok v, db') ->
    current_version db' aggregate_id tenant_id = v /\
    forall aggregate_type' more_events now' a x y,
      fst (append_events aggregate_id aggregate_type' v more_events tenant_id
             now' db') <> Raise (ConcurrencyError a x y).
Proof.
  intros db aggregate_id aggregate_type expected_version new_events tenant_id
    now v db' H.
  pose proof (current_version_after_append _ _ _ _ _ _ _ _ _ H) as Hcur.
  split; [exact Hcur|].
  intros aggregate_type' more_events now' a x y.
  rewrite append_events_unfold, Hcur, Z.eqb_refl.
  unfold transaction.
  destruct (append_loop aggregate_id aggregate_type' tenant_id now' more_events
              v db') as [[v'|e'] db''] eqn:Hloop; cbn [fst]; [discriminate|].
  apply append_loop_raise in Hloop.
  destruct Hloop as [[c ->]|[[c ->]|[c ->]]]; discriminate.
Qed.

Lemma append_events_returns_head_witness :
  append_events Sample.account_1 "Account" 2 [Sample.account_closed 103%N]
    Sample.tenant_a 2000 Sample.db_two
  = (Ok 3,
     snd (append_events Sample.account_1 "Account" 2
            [Sample.account_closed 103%N] Sample.tenant_a 2000 Sample.db_two)) /\
  current_version
    (snd (append_events Sample.account_1 "Account" 2
            [Sample.account_closed 103%N] Sample.tenant_a 2000 Sample.db_two))
    Sample.account_1 Sample.tenant_a = 3.
Proof.
  assert (H : append_events Sample.account_1 "Account" 2
                [Sample.account_closed 103%N] Sample.tenant_a 2000
                Sample.db_two
              = (Ok 3,
                 snd (append_events Sample.account_1 "Account" 2
                        [Sample.account_closed 103%N] Sample.tenant_a 2000
                        Sample.db_two))) by (vm_compute; reflexivity).
  split; [exact H|].
  exact (proj1 (append_events_returns_head _ _ _ _ _ _ _ _ _ H)).
Defined.

(** X3: once an append of at least one event has returned, every append to
    the same stream that still passes the old expected version raises
    [ConcurrencyError], with the old version as expected and the new head as
    actual, and leaves the database as it is: of two writers that read the
    same version, the second is refused. *)
Theorem append_events_stale_writer :
  forall db aggregate_id aggregate_type expected_version new_events tenant_id
         now v db',
    append_events aggregate_id aggregate_type expected_version new_events
      tenant_id now db = (Ok v, db') ->
    new_events <> [] ->
    forall aggregate_type' other_events now',
      append_events aggregate_id aggregate_type' expected_version other_events
        tenant_id now' db'
      = (Raise (ConcurrencyError aggregate_id expected_version v), db').
Proof.
  intros db aggregate_id aggregate_type expected_version new_events tenant_id
    now v db' H Hne aggregate_type' other_events now'.
  pose proof (current_version_after_append _ _ _ _ _ _ _ _ _ H) as Hcur.
  apply append_events_ok in H. destruct H as [_ H].
  apply append_loop_ok in H. destruct H as (_ & _ & _ & _ & _ & Hv).
  rewrite append_events_unfold, Hcur.
  destruct (Z.eqb_spec v expected_version) as [E|_]; [|reflexivity].
  exfalso. destruct new_events; [contradiction|]. cbn [List.length] in Hv. lia.
Qed.

Lemma append_events_stale_writer_witness :
  append_events Sample.account_1 "Account" 0
    [Sample.account_created 101%N; Sample.account_renamed 102%N]
    Sample.tenant_a 1000 Db.empty = (Ok 2, Sample.db_two) /\
  [Sample.account_created 101%N; Sample.account_renamed 102%N] <> [] /\
  append_events Sample.account_1 "Account" 0 [Sample.account_closed 103%N]
    Sample.tenant_a 2000 Sample.db_two
  = (Raise (ConcurrencyError Sample.account_1 0 2), Sample.db_two).
Proof.
  assert (H : append_events Sample.account_1 "Account" 0
                [Sample.account_created 101%N; Sample.account_renamed 102%N]
                Sample.tenant_a 1000 Db.empty = (Ok 2, Sample.db_two))
    by (vm_compute; reflexivity).
  assert (Hne : [Sample.account_created 101%N; Sample.account_renamed 102%N]
                <> []) by discriminate.
  split; [exact H|]. split; [exact Hne|].
  exact (append_events_stale_writer _ _ _ _ _ _ _ _ _ H Hne "Account"
           [Sample.account_closed 103%N] 2000).
Defined.

(** ** When an append goes through *)

Section AppendProgress.
Variables (aggregate_id : UUID) (aggregate_type : string) (tenant_id : UUID).
Variable now : Z.

(** No row of the stream is above [version]. *)
Let bounded (version : Z) (db : database) : Prop :=
  forall r, In r (events db) ->
            in_stream aggregate_id tenant_id r = true ->
            ev_version r <= version.

Let eid (event : DomainEvent) : UUID := event_id (metadata event).

Let row (event : DomainEvent) (data : json) (version : Z) : event_row :=
  mkEventRow (event_id (metadata event)) aggregate_id aggregate_type
             (class_name event) data version tenant_id
             (timestamp (metadata event)).

Lemma bounded_current db :
  bounded (current_version db aggregate_id tenant_id) db.
Proof.
  intros r Hin Hs. unfold current_version.
  pose proof (max_version_spec
                (filter (in_stream aggregate_id tenant_id) (events db))) as H.
  destruct (max_version _) as [m|].
  - destruct H as [_ H]. rewrite Forall_forall in H. simpl.
    apply H. apply filter_In. auto.
  - exfalso. assert (Hr : In r (filter (in_stream aggregate_id tenant_id)
                                  (events db))) by (apply filter_In; auto).
    rewrite H in Hr. exact Hr.
Qed.

(** Above the stream, a row breaks neither [CHECK (version > 0)] nor
    [UNIQUE (tenant_id, aggregate_id, version)]. *)
Lemma insert_above_stream event data version db :
  0 <= version -> bounded version db ->
  insert_event (row event data (version + 1)) db =
  if existsb (fun r' => N.eqb (ev_event_id r') (eid event)) (events db)
  then (Raise (UniqueViolationError "events_pkey"), db)
  else (Ok tt,
        mkDatabase (events db ++ [row event data (version + 1)]) (outbox db)
                   (outbox_id_seq db)).
Proof.
  intros Hv Hb. unfold insert_event. cbn [row ev_version ev_event_id].
  destruct (Z.ltb_spec 0 (version + 1)) as [_|Hneg]; [|lia]. cbn [negb].
  destruct (existsb _ (events db)); [reflexivity|].
  destruct (existsb (same_version_key _) (events db)) eqn:Hkey; [|reflexivity].
  exfalso. apply existsb_exists in Hkey. destruct Hkey as (r' & Hin & E).
  unfold same_version_key in E. cbn in E.
  apply andb_true_iff in E. destruct E as [E Ever].
  apply andb_true_iff in E. destruct E as [Et Ea].
  apply N.eqb_eq in Et, Ea. apply Z.eqb_eq in Ever.
  assert (Hs : in_stream aggregate_id tenant_id r' = true).
  { unfold in_stream. rewrite <- Et, <- Ea, !N.eqb_refl. reflexivity. }
  specialize (Hb r' Hin Hs). lia.
Qed.

Lemma bounded_after_insert event data version db :
  bounded version db ->
  bounded (version + 1)
    (snd (insert_outbox now (eid event) aggregate_type (class_name event) data
            tenant_id
            (mkDatabase (events db ++ [row event data (version + 1)])
                        (outbox db) (outbox_id_seq db)))).
Proof.
  intros Hb r Hin Hs. cbn [snd insert_outbox events] in Hin.
  apply in_app_or in Hin. destruct Hin as [Hin|[<-|[]]].
  - specialize (Hb r Hin Hs). lia.
  - cbn. lia.
Qed.

(** The loop ends when every event encodes and the event ids are new and
    pairwise different. *)
Lemma append_loop_progress new_events :
  forall version db,
    0 <= version -> bounded version db ->
    NoDup (map eid new_events) ->
    (forall event, In event new_events ->
                   ~ In (eid event) (map ev_event_id (events db))) ->
    (forall event, In event new_events ->
                   exists data, json_dumps (asdict event) = Ok data) ->
    exists db',
      append_loop aggregate_id aggregate_type tenant_id now new_events version
        db = (Ok (version + Z.of_nat (List.length new_events)), db').
Proof.
  induction new_events as [|event rest IH];
    intros version db Hv Hb Hnd Hfresh Henc.
  - exists db. simpl. rewrite Z.add_0_r. reflexivity.
  - rewrite append_loop_cons.
    destruct (Henc event (or_introl eq_refl)) as [data Hdata]. rewrite Hdata.
    fold (row event data (version + 1)).
    rewrite (insert_above_stream event data version db Hv Hb).
    destruct (existsb _ (events db)) eqn:Hid.
    { exfalso. apply (Hfresh event (or_introl eq_refl)).
      apply existsb_exists in Hid. destruct Hid as (r' & Hin & E).
      apply N.eqb_eq in E. rewrite <- E. apply in_map, Hin. }
    simpl in Hnd. inversion Hnd as [|? ? Hnotin Hnd']; subst.
    destruct (IH (version + 1)
                (snd (insert_outbox now (eid event) aggregate_type
                        (class_name event) data tenant_id
                        (mkDatabase
                           (events db ++ [row event data (version + 1)])
                           (outbox db) (outbox_id_seq db)))))
      as [db' Hloop].
    + lia.
    + apply bounded_after_insert, Hb.
    + exact Hnd'.
    + intros ev Hev Hin. cbn [snd insert_outbox events] in Hin.
      rewrite map_app in Hin. apply in_app_or in Hin.
      destruct Hin as [Hin|[E|[]]].
      * exact (Hfresh ev (or_intror Hev) Hin).
      * apply Hnotin. change (eid event = eid ev) in E. rewrite E.
        apply in_map, Hev.
    + intros ev Hev. apply Henc. right; exact Hev.
    + exists db'. fold (eid event). rewrite Hloop. do 2 f_equal.
      cbn [List.length]. lia.
Qed.

(** When the loop raises, an event does not encode or an event id is taken,
    by a stored row or by an earlier event of the batch. *)
Lemma append_loop_failure new_events :
  forall version db e db',
    0 <= version -> bounded version db ->
    append_loop aggregate_id aggregate_type tenant_id now new_events version db
    = (Raise e, db') ->
    (exists event, In event new_events /\
                   json_dumps (asdict event) = Raise e /\
                   exists cls, e = TypeError cls) \/
    (e = UniqueViolationError "events_pkey" /\
     ((exists event, In event new_events /\
                     In (eid event) (map ev_event_id (events db))) \/
      ~ NoDup (map eid new_events))).
Proof.
  induction new_events as [|event rest IH];
    intros version db e db' Hv Hb H.
  - discriminate.
  - rewrite append_loop_cons in H.
    destruct (json_dumps (asdict event)) as [data|e0] eqn:Hdata.
    2:{ inversion H; subst e0. left. exists event.
        split; [left; reflexivity|]. split; [exact Hdata|].
        eapply json_dumps_raise; exact Hdata. }
    fold (row event data (version + 1)) in H.
    rewrite (insert_above_stream event data version db Hv Hb) in H.
    destruct (existsb _ (events db)) eqn:Hid.
    { inversion H; subst. right. split; [reflexivity|]. left.
      exists event. split; [left; reflexivity|].
      apply existsb_exists in Hid. destruct Hid as (r' & Hin & E).
      apply N.eqb_eq in E. rewrite <- E. apply in_map, Hin. }
    apply IH in H; [|lia|apply bounded_after_insert, Hb].
    destruct H as [(ev & Hev & Hraise)|[-> Hdup]].
    + left. exists ev. split; [right; exact Hev | exact Hraise].
    + right. split; [reflexivity|].
      destruct Hdup as [(ev & Hev & Hin)|Hdup].
      * cbn [snd insert_outbox events] in Hin.
        rewrite map_app in Hin. apply in_app_or in Hin.
        destruct Hin as [Hin|[E|[]]].
        -- left. exists ev. split; [right; exact Hev | exact Hin].
        -- right. intros Hnd. simpl in Hnd.
           inversion Hnd as [|? ? Hnotin _]; subst.
           apply Hnotin. change (eid event = eid ev) in E. rewrite E.
           apply in_map, Hev.
      * right. intros Hnd. simpl in Hnd.
        inversion Hnd; subst. auto.
Qed.

End AppendProgress.





(** ** The tables over time *)

Lemma append_events_added aggregate_id aggregate_type expected_version
    new_events tenant_id now db :
  exists erows orows,
    events (snd (append_events aggregate_id aggregate_type expected_version
                   new_events tenant_id now db)) = events db ++ erows /\
    outbox (snd (append_events aggregate_id aggregate_type expected_version
                   new_events tenant_id now db)) = outbox db ++ orows /\
    Forall2 paired erows orows.
Proof.
  destruct (append_events aggregate_id aggregate_type expected_version
              new_events tenant_id now db) as [[v|e] db'] eqn:H; cbn [snd].
  - apply append_events_ok in H. destruct H as [_ H].
    apply append_loop_ok in H. destruct H as (datas & _ & He & Ho & _).
    eexists; eexists. split; [exact He|]. split; [exact Ho|].
    apply new_rows_paired.
  - apply append_events_raise in H. destruct H as [He Ho].
    exists [], []. rewrite He, Ho, !app_nil_r. repeat split. constructor.
Qed.

(** X6: the [events] table is append-only. Whatever it returns or raises,
    [append_events] leaves the rows that were there in place and in order
    and at most adds rows after them; [process_outbox] leaves the table as
    it is. *)
Theorem events_append_only :
  (forall db aggregate_id aggregate_type expected_version new_events tenant_id
          now,
      exists added,
        events (snd (append_events aggregate_id aggregate_type
                       expected_version new_events tenant_id now db))
        = events db ++ added) /\
  (forall db scan batch_size kp,
      events (snd (fst (process_outbox scan batch_size db kp))) = events db).
Proof.
  split.
  - intros db aggregate_id aggregate_type expected_version new_events
      tenant_id now.
    destruct (append_events_added aggregate_id aggregate_type expected_version
                new_events tenant_id now db) as (erows & _ & He & _).
    exists erows. exact He.
  - intros db scan batch_size kp. apply process_outbox_events.
Qed.

Lemma process_outbox_outbox_incl scan batch_size db kp :
  forall r, In r (outbox (snd (fst (process_outbox scan batch_size db kp)))) ->
            In r (outbox db).
Proof.
  intros r. destruct (fetch_outbox scan batch_size) as [rows|e] eqn:Hf.
  - rewrite (process_outbox_unfold _ _ _ _ _ Hf).
    destruct (process_rows rows 0 db kp) as [[n db'] kp'] eqn:H.
    apply process_rows_spec in H. destruct H as (_ & _ & _ & _ & _ & Ho).
    cbn [fst snd]. rewrite Ho. intros Hin. apply filter_In in Hin. tauto.
  - unfold process_outbox. rewrite Hf. auto.
Qed.

(** X7: in every state the two services reach, each row of the [outbox]
    table has a row of the [events] table with the same event id, event
    type, payload, tenant id and aggregate type: the relay never finds a
    message without its stored event. *)
Theorem outbox_rows_have_events :
  forall db,
    reachable db ->
    forall orow, In orow (outbox db) ->
                 exists erow, In erow (events db) /\ paired erow orow.
Proof.
  induction 1 as [|db aggregate_id aggregate_type expected_version new_events
                     tenant_id now Hr IH
                  |db scan batch_size kp Hr IH Hperm].
  - intros orow [].
  - destruct (append_events_added aggregate_id aggregate_type expected_version
                new_events tenant_id now db) as (erows & orows & He & Ho & Hp).
    intros orow Hin. rewrite Ho in Hin. rewrite He.
    apply in_app_or in Hin. destruct Hin as [Hin|Hin].
    + destruct (IH orow Hin) as (erow & Her & Hpair).
      exists erow. split; [apply in_or_app; left; exact Her | exact Hpair].
    + clear - Hp Hin. induction Hp as [|er o erows orows Hpair _ IHp].
      * destruct Hin.
      * destruct Hin as [<-|Hin].
        -- exists er. split; [apply in_or_app; right; left; reflexivity|].
           exact Hpair.
        -- destruct (IHp Hin) as (erow & Her & Hq).
           exists erow. split; [|exact Hq].
           apply in_app_or in Her. apply in_or_app.
           destruct Her; [left|right; right]; assumption.
  - intros orow Hin. rewrite process_outbox_events.
    apply IH. eapply process_outbox_outbox_incl; exact Hin.
Qed.

Lemma outbox_rows_have_events_witness :
  reachable Sample.db_two /\
  forall orow, In orow (outbox Sample.db_two) ->
               exists erow, In erow (events Sample.db_two) /\ paired erow orow.
Proof.
  assert (Hr : reachable Sample.db_two)
    by (unfold Sample.db_two; apply reach_append, reach_empty).
  split; [exact Hr|].
  exact (outbox_rows_have_events Sample.db_two Hr).
Defined.

(** ** Loading what was appended *)

Lemma rows_of_events_records new_events erows :
  Forall2 row_of_event new_events erows ->
  Forall2 (fun event d =>
             d_event_id d = event_id (metadata event) /\
             d_event_type d = class_name event /\
             d_event_data d = wire_form (asdict event) /\
             d_created_at d = timestamp (metadata event))
          new_events (map event_dict_of_row erows).
Proof.
  induction 1 as [|event er evs ers (Hid & Hty & Hdata & Hts) _ IH];
    cbn [map]; constructor; [|exact IH].
  cbn [event_dict_of_row d_event_id d_event_type d_event_data d_created_at].
  split; [exact Hid|]. split; [exact Hty|]. split; [|exact Hts].
  apply loads_dumps_wire_form. exact Hdata.
Qed.



(** X9: in a reachable state what [load_events] returns does not depend on
    the order in which the table is read: it raises
    [AggregateNotFoundError] exactly when the current version of the stream
    is 0, and otherwise returns the records of the stream in the order in
    which they were appended, as many as the current version says. *)
Theorem load_events_reachable :
  forall db scan aggregate_id aggregate_type tenant_id,
    reachable db ->
    Permutation scan (events db) ->
    let stream := filter (in_stream aggregate_id tenant_id) (events db) in
    load_events scan aggregate_id aggregate_type tenant_id
    = (if current_version db aggregate_id tenant_id =? 0
       then Raise (AggregateNotFoundError aggregate_id aggregate_type)
       else Ok (map event_dict_of_row stream)) /\
    Z.of_nat (List.length stream) = current_version db aggregate_id tenant_id.
Proof.
  intros db scan aggregate_id aggregate_type tenant_id Hr Hperm stream.
  pose proof (reachable_contiguous db Hr aggregate_id tenant_id) as Hc.
  cbv zeta in Hc. fold stream in Hc.
  assert (Hcur : current_version db aggregate_id tenant_id
                 = Z.of_nat (List.length stream)).
  { unfold current_version. fold stream.
    rewrite (max_version_range stream 0 Hc). lia. }
  split; [|symmetry; exact Hcur].
  unfold load_events.
  rewrite (fetch_events_reachable db scan aggregate_id tenant_id Hr Hperm).
  fold stream. rewrite Hcur.
  destruct stream; reflexivity.
Qed.

Lemma load_events_reachable_witness :
  reachable Sample.db_collision /\
  Permutation (rev (events Sample.db_collision)) (events Sample.db_collision) /\
  load_events (rev (events Sample.db_collision)) Sample.account_1 "Account"
    Sample.tenant_a
  = Ok (map event_dict_of_row
            (filter (in_stream Sample.account_1 Sample.tenant_a)
                    (events Sample.db_collision))) /\
  load_events (rev (events Sample.db_collision)) Sample.tenant_a "Account"
    Sample.tenant_a
  = Raise (AggregateNotFoundError Sample.tenant_a "Account").
Proof.
  assert (Hr : reachable Sample.db_collision)
    by (unfold Sample.db_collision, Sample.db_two;
        apply reach_append, reach_append, reach_empty).
  assert (Hp : Permutation (rev (events Sample.db_collision))
                 (events Sample.db_collision))
    by (symmetry; apply Permutation_rev).
  split; [exact Hr|]. split; [exact Hp|]. split.
  - exact (proj1 (load_events_reachable Sample.db_collision _ Sample.account_1
                    "Account" Sample.tenant_a Hr Hp)).
  - exact (proj1 (load_events_reachable Sample.db_collision _ Sample.tenant_a
                    "Account" Sample.tenant_a Hr Hp)).
Defined.

(** ** Delivery over several runs of the relay *)

Lemma acknowledged_cons row rest ok oks r :
  acknowledged (row :: rest) (ok :: oks) r =
  (ok && (ob_id row =? ob_id r)) || acknowledged rest oks r.
Proof. reflexivity. Qed.

Lemma acknowledged_exists rows oks r :
  acknowledged rows oks r = true ->
  exists r', In (r', true) (combine rows oks) /\ ob_id r' = ob_id r.
Proof.
  unfold acknowledged. intros H. apply existsb_exists in H.
  destruct H as ([r' ok] & Hin & Hp). cbn [fst snd] in Hp.
  apply andb_true_iff in Hp. destruct Hp as [-> Hid].
  apply Z.eqb_eq in Hid. exists r'. auto.
Qed.

Lemma in_combine_messages rows :
  forall (oks : list bool) r ok,
    In (r, ok) (combine rows oks) ->
    In (message_of_row r, ok) (combine (map message_of_row rows) oks).
Proof.
  induction rows as [|row rest IH]; intros [|o oks] r ok Hin; simpl in *;
    try contradiction.
  destruct Hin as [E|Hin]; [left; inversion E; reflexivity | right; auto].
Qed.

(** A broker that acknowledges everything from message [n] on. *)
Lemma outcomes_all_acknowledged acks rows :
  forall n,
    (forall k m, (n <= k)%nat -> acks k m = true) ->
    forall r, In r rows -> In (r, true) (combine rows (outcomes acks n rows)).
Proof.
  induction rows as [|row rest IH]; intros n Hack r Hin; [destruct Hin|].
  cbn [outcomes combine]. destruct Hin as [<-|Hin].
  - left. rewrite Hack by lia. reflexivity.
  - right. apply IH; [|exact Hin]. intros k m Hk. apply Hack. lia.
Qed.

Lemma count_true_all_acknowledged acks rows :
  forall n,
    (forall k m, (n <= k)%nat -> acks k m = true) ->
    count_true (outcomes acks n rows) = Z.of_nat (List.length rows).
Proof.
  unfold count_true.
  induction rows as [|row rest IH]; intros n Hack; [reflexivity|].
  cbn [outcomes]. rewrite Hack by lia. cbn [filter List.length].
  f_equal. f_equal.
  apply Nat2Z.inj. apply IH. intros k m Hk. apply Hack. lia.
Qed.

Lemma in_acknowledged rows oks r :
  In (r, true) (combine rows oks) -> acknowledged rows oks r = true.
Proof.
  intros Hin. unfold acknowledged. apply existsb_exists.
  exists (r, true). split; [exact Hin|]. cbn. apply Z.eqb_refl.
Qed.

Lemma length_without_id (l : list outbox_row) r :
  NoDup (map ob_id l) -> In r l ->
  S (List.length (filter (fun x => negb (ob_id r =? ob_id x)) l))
  = List.length l.
Proof.
  induction l as [|a l IH]; intros Hnd Hin; [destruct Hin|].
  simpl in Hnd. inversion Hnd as [|? ? Hnotin Hnd']; subst.
  cbn [filter]. destruct Hin as [->|Hin].
  - rewrite Z.eqb_refl. cbn [negb List.length]. f_equal.
    f_equal. apply forallb_filter_id. apply forallb_forall.
    intros x Hx. apply negb_true_iff. apply Z.eqb_neq. intros E.
    apply Hnotin. rewrite E. apply in_map, Hx.
  - destruct (Z.eqb_spec (ob_id r) (ob_id a)) as [E|E].
    + exfalso. apply Hnotin. rewrite <- E. apply in_map, Hin.
    + cbn [negb List.length]. f_equal. apply IH; assumption.
Qed.

(** The rows that stay and the acknowledgments add up to the table. *)
Lemma length_not_acknowledged rows :
  forall oks (l : list outbox_row),
    List.length oks = List.length rows ->
    NoDup (map ob_id l) ->
    NoDup (map ob_id rows) ->
    (forall r, In r rows -> In r l) ->
    Z.of_nat (List.length
                (filter (fun r => negb (acknowledged rows oks r)) l))
    + count_true oks = Z.of_nat (List.length l).
Proof.
  unfold count_true.
  induction rows as [|row rest IH]; intros oks l Hlen Hl Hrows Hsub.
  - destruct oks; [|discriminate]. cbn.
    rewrite forallb_filter_id by (apply forallb_forall; auto). lia.
  - destruct oks as [|ok oks]; [discriminate|].
    simpl in Hrows. inversion Hrows as [|? ? Hnotin Hrows']; subst.
    destruct ok.
    + rewrite (filter_ext _
                 (fun r => negb (ob_id row =? ob_id r)
                           && negb (acknowledged rest oks r)))
        by (intros r; rewrite acknowledged_cons, negb_orb; reflexivity).
      rewrite <- filter_filter. cbn [filter List.length].
      specialize (IH oks (filter (fun x => negb (ob_id row =? ob_id x)) l)).
      pose proof (length_without_id l row Hl (Hsub row (or_introl eq_refl)))
        as Hrow.
      assert (Hl' : NoDup (map ob_id
                             (filter (fun x => negb (ob_id row =? ob_id x)) l))).
      { clear - Hl. induction l as [|a l IHl]; simpl; [constructor|].
        simpl in Hl. inversion Hl as [|? ? Ha Hl']; subst.
        destruct (negb _); simpl; auto. constructor; auto.
        intros Hin. apply in_map_iff in Hin. destruct Hin as (x & E & Hx).
        apply filter_In in Hx. apply Ha. rewrite <- E.
        apply in_map. tauto. }
      rewrite Nat2Z.inj_succ.
      rewrite <- Hrow, Nat2Z.inj_succ.
      rewrite <- IH; [lia| simpl in Hlen; lia | exact Hl' | exact Hrows' |].
      intros r Hr. apply filter_In. split; [apply Hsub; right; exact Hr|].
      apply negb_true_iff, Z.eqb_neq. intros E. apply Hnotin.
      rewrite E. apply in_map, Hr.
    + rewrite (filter_ext _ (fun r => negb (acknowledged rest oks r)))
        by (intros r; rewrite acknowledged_cons; reflexivity).
      cbn [filter].
      apply IH;
        [simpl in Hlen; lia | exact Hl | exact Hrows'
        | intros r Hr; apply Hsub; right; exact Hr].
Qed.

Lemma filter_nil {A} (f : A -> bool) (l : list A) :
  (forall x, In x l -> f x = false) -> filter f l = [].
Proof.
  induction l as [|a l IH]; intros H; simpl; [reflexivity|].
  rewrite (H a (or_introl eq_refl)). apply IH. intros x Hx. apply H. right.
  exact Hx.
Qed.



(** ** More on the payload encoder *)

Import Values.

Lemma json_dumps_asdict_inner v :
  json_dumps (asdict_inner v) = json_dumps v.
Proof.
  induction v using pyval_induction; try reflexivity.
  - cbn [asdict_inner]. rewrite !json_dumps_list. f_equal.
    unfold dumps_items. induction H as [|x l Hx _ IH]; [reflexivity|].
    cbn [map mapM]. rewrite Hx, IH. reflexivity.
  - cbn [asdict_inner]. rewrite !json_dumps_tuple. f_equal.
    unfold dumps_items. induction H as [|x l Hx _ IH]; [reflexivity|].
    cbn [map mapM]. rewrite Hx, IH. reflexivity.
  - cbn [asdict_inner]. rewrite !json_dumps_dict. f_equal.
    induction H as [|[k x] l Hx _ IH]; [reflexivity|].
    cbn [map dumps_members fst snd]. cbn [snd] in Hx. rewrite Hx, IH.
    reflexivity.
  - destruct m as [eid cid ts [c|] [u|] sv]; reflexivity.
Qed.

Lemma dumps_members_asdict_inner d :
  dumps_members (map (fun kv => (fst kv, asdict_inner (snd kv))) d)
  = dumps_members d.
Proof.
  induction d as [|[k x] d IH]; [reflexivity|].
  cbn [map dumps_members fst snd]. rewrite json_dumps_asdict_inner, IH.
  reflexivity.
Qed.


Lemma object_free_dumps v :
  object_free v = true -> exists j, json_dumps v = Ok j.
Proof.
  induction v using pyval_induction; intros Hv;
    try (eexists; reflexivity); try discriminate.
  - rewrite json_dumps_list. unfold dumps_items.
    assert (exists js, mapM json_dumps l = Ok js) as [js ->].
    { cbn [object_free] in Hv. induction H as [|x l Hx _ IH].
      - eexists; reflexivity.
      - apply andb_true_iff in Hv. destruct Hv as [Hv1 Hv2].
        destruct (Hx Hv1) as [j Hj]. destruct (IH Hv2) as [js Hjs].
        exists (j :: js). cbn [mapM]. rewrite Hj, Hjs. reflexivity. }
    eexists; reflexivity.
  - rewrite json_dumps_tuple. unfold dumps_items.
    assert (exists js, mapM json_dumps l = Ok js) as [js ->].
    { cbn [object_free] in Hv. induction H as [|x l Hx _ IH].
      - eexists; reflexivity.
      - apply andb_true_iff in Hv. destruct Hv as [Hv1 Hv2].
        destruct (Hx Hv1) as [j Hj]. destruct (IH Hv2) as [js Hjs].
        exists (j :: js). cbn [mapM]. rewrite Hj, Hjs. reflexivity. }
    eexists; reflexivity.
  - rewrite json_dumps_dict.
    assert (exists js, dumps_members d = Ok js) as [js ->].
    { cbn [object_free] in Hv. induction H as [|[k x] l Hx _ IH].
      - eexists; reflexivity.
      - apply andb_true_iff in Hv. destruct Hv as [Hv1 Hv2].
        destruct (Hx Hv1) as [j Hj]. destruct (IH Hv2) as [js Hjs].
        exists ((k, j) :: js). cbn [dumps_members].
        cbn [snd] in Hj. rewrite Hj, Hjs. reflexivity. }
    eexists; reflexivity.
Qed.



(** ** The data lake client *)

Import Lake.

Lemma string_app_assoc (a b c : string) :
  ((a ++ b) ++ c)%string = (a ++ b ++ c)%string.
Proof. induction a as [|x a IH]; simpl; [reflexivity | rewrite IH; reflexivity]. Qed.

Lemma prefix_app (a b : string) : prefix a (a ++ b)%string = true.
Proof.
  induction a as [|x a IH]; simpl.
  - destruct b; reflexivity.
  - destruct (ascii_dec x x) as [_|N]; [exact IH | contradiction].
Qed.

Lemma str_int_of_N n : str_int (Z.of_N n) = string_of_N n.
Proof.
  unfold str_int. destruct (Z.ltb_spec (Z.of_N n) 0) as [H|_]; [lia|].
  rewrite N2Z.id. reflexivity.
Qed.

Lemma format_02d_of_N n : format_02d (Z.of_N n) = zfill 2 n.
Proof.
  unfold format_02d. destruct (Z.ltb_spec (Z.of_N n) 0) as [H|_]; [lia|].
  rewrite N2Z.id. reflexivity.
Qed.

(** X13: what [upload_event_to_bronze] writes for a date lies in the
    directory that [read_events_from_bronze] lists for the year, the month
    and the day of that date, and in the one it lists for the year and the
    month when no day is given: the path returned starts with the partition
    path of the reader followed by a slash. *)
Theorem upload_path_under_read_partition :
  forall partition_date now,
    let d := match partition_date with Some given => given | None => now end in
    day d <> 0%N ->
    prefix
      (read_partition_path (Z.of_N (year d)) (Z.of_N (month d))
         (Some (Z.of_N (day d))) ++ "/")%string
      (upload_full_path partition_date now) = true /\
    prefix
      (read_partition_path (Z.of_N (year d)) (Z.of_N (month d)) None ++ "/")%string
      (upload_full_path partition_date now) = true.
Proof.
  intros partition_date now d Hday.
  unfold upload_full_path. fold d. cbv zeta.
  unfold read_partition_path, upload_partition_path.
  destruct (Z.eqb_spec (Z.of_N (day d)) 0) as [E|_]; [lia|].
  set (ym := ("year=" ++ str_int (Z.of_N (year d)) ++ "/month=" ++
              format_02d (Z.of_N (month d)))%string).
  set (dd := format_02d (Z.of_N (day d))).
  set (file := (strftime_stamp d ++ ".parquet")%string).
  assert (Hym : ("year=" ++ str_int (Z.of_N (year d)) ++ "/month=" ++
                 format_02d (Z.of_N (month d)) ++ "/day=" ++ dd)%string
                = (ym ++ "/day=" ++ dd)%string).
  { unfold ym. cbn [append]. f_equal.
    rewrite !string_app_assoc. reflexivity. }
  rewrite Hym. split.
  - rewrite <- (string_app_assoc (ym ++ "/day=" ++ dd) "/" file).
    apply prefix_app.
  - replace ((ym ++ "/day=" ++ dd) ++ "/" ++ file)%string
      with ((ym ++ "/") ++ "day=" ++ dd ++ "/" ++ file)%string.
    + apply prefix_app.
    + rewrite !string_app_assoc. reflexivity.
Qed.

Lemma upload_path_under_read_partition_witness :
  day Sample.noon <> 0%N /\
  upload_full_path (Some Sample.noon) Sample.noon
  = "year=2024/month=01/day=15/20240115_120000.parquet"%string /\
  prefix (read_partition_path 2024 1 (Some 15) ++ "/")%string
         (upload_full_path (Some Sample.noon) Sample.noon) = true.
Proof.
  assert (H : day Sample.noon <> 0%N) by (vm_compute; discriminate).
  split; [exact H|]. split; [vm_compute; reflexivity|].
  exact (proj1 (upload_path_under_read_partition (Some Sample.noon)
                  Sample.noon H)).
Defined.

(** X14: [transform_bronze_to_silver] does not look where
    [upload_event_to_bronze] writes. The directory it lists starts with
    [events/<event_type>/], the path of an upload starts with [year=]: for
    no event type and no date is the first a prefix of the second. And with
    the default [day=None] the directory cannot even be named: formatting it
    raises. *)
Theorem silver_source_misses_uploads :
  (forall event_type year month day source partition_date now,
      silver_source_path event_type year month day = Done source ->
      prefix source (upload_full_path partition_date now) = false) /\
  (forall event_type year month,
      silver_source_path event_type year month None = Failed FormatTypeError).
Proof.
  split; [|reflexivity].
  intros event_type year month day source partition_date now H.
  unfold silver_source_path in H.
  destruct (format_02d_opt day) as [dd|e]; [|discriminate].
  inversion H; subst source. reflexivity.
Qed.

Lemma silver_source_misses_uploads_witness :
  silver_source_path "AccountCreated" 2024 1 (Some 15)
  = Done "events/AccountCreated/year=2024/month=01/day=15"%string /\
  prefix "events/AccountCreated/year=2024/month=01/day=15"
         (upload_full_path (Some Sample.noon) Sample.noon) = false.
Proof.
  assert (H : silver_source_path "AccountCreated" 2024 1 (Some 15)
              = Done "events/AccountCreated/year=2024/month=01/day=15"%string)
    by (vm_compute; reflexivity).
  split; [exact H|].
  exact (proj1 silver_source_misses_uploads _ _ _ _ _ (Some Sample.noon)
           Sample.noon H).
Defined.

(** *** Deduplication *)

Lemma cell_eqb_eq a b : cell_eqb a b = true <-> a = b.
Proof.
  destruct a, b; simpl; try (split; [discriminate | intros H; inversion H]).
  - tauto.
  - rewrite String.eqb_eq. split; [intros ->; reflexivity | intros H; inversion H; reflexivity].
  - rewrite Z.eqb_eq. split; [intros ->; reflexivity | intros H; inversion H; reflexivity].
  - rewrite Z.eqb_eq. split; [intros ->; reflexivity | intros H; inversion H; reflexivity].
Qed.

Lemma seen_in id ids : seen id ids = true <-> In id ids.
Proof.
  unfold seen. rewrite existsb_exists. split.
  - intros (x & Hin & E). apply cell_eqb_eq in E. subst; exact Hin.
  - intros Hin. exists id. split; [exact Hin | apply cell_eqb_eq; reflexivity].
Qed.

Lemma seen_cons_false id x ids :
  seen id (x :: ids) = false <-> id <> x /\ seen id ids = false.
Proof.
  unfold seen. cbn [existsb]. rewrite orb_false_iff. split.
  - intros [E H]. split; [|exact H]. intros ->.
    assert (cell_eqb x x = true) by (apply cell_eqb_eq; reflexivity).
    congruence.
  - intros [E H]. split; [|exact H].
    destruct (cell_eqb id x) eqn:C; [|reflexivity].
    apply cell_eqb_eq in C. contradiction.
Qed.

Lemma subseq_length {A} (l l' : list A) :
  subseq l l' -> (List.length l <= List.length l')%nat.
Proof. induction 1; simpl; lia. Qed.

Lemma subseq_in {A} (l l' : list A) :
  subseq l l' -> forall x, In x l -> In x l'.
Proof.
  induction 1 as [|x l l' _ IH|x l l' _ IH]; intros y Hy; simpl in *; auto.
  destruct Hy; auto.
Qed.

(** The loop, from any set and any list: what it appends. *)
Lemma dedupe_loop_spec all_events :
  forall seen_ids unique_events result,
    dedupe_loop all_events seen_ids unique_events = Done result ->
    exists kept,
      result = unique_events ++ kept /\
      subseq kept all_events /\
      Forall (fun e => exists id, event_id_of e = Done id) all_events /\
      NoDup (map event_id_of kept) /\
      (forall e id, In e kept -> event_id_of e = Done id ->
                    seen id seen_ids = false) /\
      (forall pre e post id,
          all_events = pre ++ e :: post ->
          event_id_of e = Done id ->
          seen id seen_ids = false ->
          ~ In (Done id) (map event_id_of pre) ->
          In e kept) /\
      (forall e id, In e all_events -> event_id_of e = Done id ->
                    seen id seen_ids = true \/
                    In (Done id) (map event_id_of kept)).
Proof.
  induction all_events as [|event rest IH];
    intros seen_ids unique_events result H.
  - inversion H; subst. exists []. rewrite app_nil_r.
    split; [reflexivity|]. split; [constructor|]. split; [constructor|].
    split; [constructor|]. split; [intros x i []|].
    split; [|intros x i []].
    intros pre x post i E. destruct pre; discriminate.
  - cbn [dedupe_loop] in H.
    destruct (event_id_of event) as [id0|err] eqn:Hid; [|discriminate].
    destruct (seen id0 seen_ids) eqn:Hseen.
    + apply IH in H.
      destruct H as (kept & Hres & Hsub & Hall & Hnd & Hfresh & Hfirst & Hcov).
      exists kept. split; [exact Hres|]. split; [constructor; exact Hsub|].
      split; [constructor; [eexists; exact Hid | exact Hall]|].
      split; [exact Hnd|]. split; [exact Hfresh|]. split.
      * intros pre x post i E Hx Hs Hpre.
        destruct pre as [|p pre]; cbn [app] in E; inversion E; subst.
        -- rewrite Hid in Hx. inversion Hx; subst. congruence.
        -- eapply Hfirst; eauto. intros Hin. apply Hpre. right; exact Hin.
      * intros x i [<-|Hin] Hx.
        -- rewrite Hid in Hx. inversion Hx; subst. left; exact Hseen.
        -- eapply Hcov; eauto.
    + apply IH in H.
      destruct H as (kept & Hres & Hsub & Hall & Hnd & Hfresh & Hfirst & Hcov).
      exists (event :: kept).
      split; [rewrite Hres, <- app_assoc; reflexivity|].
      split; [constructor; exact Hsub|].
      split; [constructor; [eexists; exact Hid | exact Hall]|].
      split; [|split; [|split]].
      * cbn [map]. constructor; [|exact Hnd].
        rewrite Hid. intros Hin. apply in_map_iff in Hin.
        destruct Hin as (x & Hx & Hin).
        specialize (Hfresh x id0 Hin Hx).
        apply seen_cons_false in Hfresh. destruct Hfresh as [Hne _].
        contradiction.
      * intros x i [<-|Hin] Hx.
        -- rewrite Hid in Hx. inversion Hx; subst. exact Hseen.
        -- specialize (Hfresh x i Hin Hx).
           apply seen_cons_false in Hfresh. tauto.
      * intros pre x post i E Hx Hs Hpre.
        destruct pre as [|p pre]; cbn [app] in E; inversion E; subst.
        -- left; reflexivity.
        -- right. eapply Hfirst; eauto.
           ++ apply seen_cons_false. split; [|exact Hs].
              intros ->. apply Hpre. left. exact Hid.
           ++ intros Hin. apply Hpre. right; exact Hin.
      * intros x i [<-|Hin] Hx.
        -- right. left. exact Hx.
        -- destruct (Hcov x i Hin Hx) as [Hs|Hk].
           ++ unfold seen in Hs. cbn [existsb] in Hs.
              apply orb_true_iff in Hs. destruct Hs as [C|Hs].
              ** apply cell_eqb_eq in C. subst id0. right. left.
                 exact Hid.
              ** left. exact Hs.
           ++ right. right. exact Hk.
Qed.

(** On rows whose ids are pairwise different and not in the set, the loop
    keeps every row. *)
Lemma dedupe_loop_distinct all_events :
  forall seen_ids unique_events,
    Forall (fun e => exists id, event_id_of e = Done id) all_events ->
    NoDup (map event_id_of all_events) ->
    (forall e id, In e all_events -> event_id_of e = Done id ->
                  seen id seen_ids = false) ->
    dedupe_loop all_events seen_ids unique_events
    = Done (unique_events ++ all_events).
Proof.
  induction all_events as [|event rest IH];
    intros seen_ids unique_events Hall Hnd Hfresh.
  - simpl. rewrite app_nil_r. reflexivity.
  - inversion Hall as [|? ? [id0 Hid] Hall']; subst.
    simpl in Hnd. inversion Hnd as [|? ? Hnotin Hnd']; subst.
    cbn [dedupe_loop]. rewrite Hid.
    rewrite (Hfresh event id0 (or_introl eq_refl) Hid).
    rewrite IH; [rewrite <- app_assoc; reflexivity | exact Hall' | exact Hnd' |].
    intros x i Hin Hx. apply seen_cons_false. split.
    + intros ->. apply Hnotin. rewrite Hid, <- Hx. apply in_map, Hin.
    + apply (Hfresh x i (or_intror Hin) Hx).
Qed.

(** X15: the deduplication of [transform_bronze_to_silver], when it ends,
    keeps for every event id the first row that carries it and drops the
    later ones: the rows kept have pairwise different event ids, they are
    rows of the input in the order of the input, every event id of the input
    is the id of a row kept, the number of duplicates removed is not
    negative, and deduplicating the result again changes nothing. *)
Theorem deduplicate_keeps_first :
  forall all_events unique_events,
    deduplicate all_events = Done unique_events ->
    NoDup (map event_id_of unique_events) /\
    subseq unique_events all_events /\
    (forall pre event post id,
        all_events = pre ++ event :: post ->
        event_id_of event = Done id ->
        ~ In (Done id) (map event_id_of pre) ->
        In event unique_events) /\
    (forall event, In event all_events ->
                   In (event_id_of event) (map event_id_of unique_events)) /\
    0 <= duplicates_removed all_events unique_events /\
    deduplicate unique_events = Done unique_events.
Proof.
  intros all_events unique_events H. unfold deduplicate in H.
  apply dedupe_loop_spec in H.
  destruct H as (kept & Hres & Hsub & Hall & Hnd & Hfresh & Hfirst & Hcov).
  cbn [app] in Hres. subst kept.
  split; [exact Hnd|]. split; [exact Hsub|]. split; [|split; [|split]].
  - intros pre event post id E Hid Hpre.
    eapply Hfirst; eauto.
  - intros event Hin. rewrite Forall_forall in Hall.
    destruct (Hall event Hin) as [id Hid]. rewrite Hid.
    destruct (Hcov event id Hin Hid) as [Hs|Hk]; [discriminate | exact Hk].
  - unfold duplicates_removed. pose proof (subseq_length _ _ Hsub). lia.
  - unfold deduplicate.
    rewrite dedupe_loop_distinct; [reflexivity| |exact Hnd|reflexivity].
    apply Forall_forall. intros x Hx. rewrite Forall_forall in Hall.
    apply Hall. eapply subseq_in; eauto.
Qed.

Lemma deduplicate_keeps_first_witness :
  deduplicate
    [ [("event_id", CStr "a"); ("event_type", CStr "AccountCreated")];
      [("event_id", CStr "b"); ("event_type", CStr "AccountRenamed")];
      [("event_id", CStr "a"); ("event_type", CStr "AccountClosed")] ]
  = Done [ [("event_id", CStr "a"); ("event_type", CStr "AccountCreated")];
           [("event_id", CStr "b"); ("event_type", CStr "AccountRenamed")] ] /\
  duplicates_removed
    [ [("event_id", CStr "a"); ("event_type", CStr "AccountCreated")];
      [("event_id", CStr "b"); ("event_type", CStr "AccountRenamed")];
      [("event_id", CStr "a"); ("event_type", CStr "AccountClosed")] ]
    [ [("event_id", CStr "a"); ("event_type", CStr "AccountCreated")];
      [("event_id", CStr "b"); ("event_type", CStr "AccountRenamed")] ] >= 0.
Proof.
  assert (H : deduplicate
                [ [("event_id", CStr "a"); ("event_type", CStr "AccountCreated")];
                  [("event_id", CStr "b"); ("event_type", CStr "AccountRenamed")];
                  [("event_id", CStr "a"); ("event_type", CStr "AccountClosed")] ]
              = Done [ [("event_id", CStr "a");
                        ("event_type", CStr "AccountCreated")];
                       [("event_id", CStr "b");
                        ("event_type", CStr "AccountRenamed")] ])
    by (vm_compute; reflexivity).
  split; [exact H|].
  destruct (deduplicate_keeps_first _ _ H) as (_ & _ & _ & _ & Hd & _).
  lia.
Defined.

Lemma dedupe_loop_failed all_events :
  forall seen_ids unique_events err,
    dedupe_loop all_events seen_ids unique_events = Failed err ->
    err = KeyError "event_id" /\
    exists event, In event all_events /\
                  Domain.assoc "event_id" event = None.
Proof.
  induction all_events as [|event rest IH];
    intros seen_ids unique_events err H; [discriminate|].
  cbn [dedupe_loop] in H. unfold event_id_of in H.
  destruct (Domain.assoc "event_id" event) as [id0|] eqn:Hid.
  - assert (Hrest : exists s u, dedupe_loop rest s u = Failed err)
      by (destruct (seen id0 seen_ids); eauto).
    destruct Hrest as (s & u & Hrest). apply IH in Hrest.
    destruct Hrest as (-> & x & Hin & Hx).
    split; [reflexivity|]. exists x. split; [right; exact Hin | exact Hx].
  - inversion H. split; [reflexivity|]. exists event.
    split; [left; reflexivity | exact Hid].
Qed.

Lemma dedupe_loop_missing all_events :
  forall seen_ids unique_events event,
    In event all_events ->
    Domain.assoc "event_id" event = None ->
    dedupe_loop all_events seen_ids unique_events
    = Failed (KeyError "event_id").
Proof.
  induction all_events as [|x rest IH];
    intros seen_ids unique_events event Hin Hnone; [destruct Hin|].
  cbn [dedupe_loop]. unfold event_id_of.
  destruct (Domain.assoc "event_id" x) as [id0|] eqn:Hid.
  - destruct Hin as [->|Hin]; [congruence|].
    destruct (seen id0 seen_ids); eapply IH; eauto.
  - reflexivity.
Qed.

